(** * Vault synchronisation of sidebar-markdown-notes

    A shallow embedding of [SidebarMarkdownNotesProvider] (the webview
    provider of the extension): the workspace hash, the vault path,
    the [init] and [saveState] message handlers, the directory watcher
    callback and the delayed diagnostic callback scheduled by
    [_getWorkspaceHash]; also the loop of [_getNonce] and
    [updateStatusBar].

    Conventions.
    - JavaScript strings are modelled by [string] (a byte sequence, the
      UTF-8 encoding of the text).  The only character the code searches
      for is the ASCII [+], so splitting on bytes and splitting on UTF-16
      units agree.
    - The platform built-ins the provider calls are modelled next to the
      code: [crypto.createHash('md5')] by [Md5.md5_hex] (RFC 1321),
      [JSON.stringify (_, null, 2)] and [JSON.parse] by [Json.stringify]
      and [Json.parse], the synchronous [fs] calls by a finite map from
      the paths of regular files to their contents and a finite set of
      directories.
    - Handlers are written in a state-and-exception monad over the
      [World]: what a handler changed before it threw stays changed. *)

From Stdlib Require Import ZArith List String Ascii Bool Lia DecimalString.
From stdpp Require Import gmap strings list fin_maps.
Import ListNotations.

(* ===================================================================== *)
(** ** MD5 ([crypto.createHash('md5').update(s).digest('hex')]) *)
(* ===================================================================== *)

Module Md5.
Local Open Scope Z_scope.

Definition add32 (a b : Z) : Z := (a + b) mod 2 ^ 32.
Definition not32 (a : Z) : Z := Z.lxor a 0xffffffff.
Definition rotl32 (x c : Z) : Z :=
  Z.lor (Z.shiftl x c mod 2 ^ 32) (Z.shiftr x (32 - c)).

(** The sine table, [floor (2^32 * |sin (i + 1)|)]. *)
Definition K : list Z :=
  [ 0xd76aa478; 0xe8c7b756; 0x242070db; 0xc1bdceee;
    0xf57c0faf; 0x4787c62a; 0xa8304613; 0xfd469501;
    0x698098d8; 0x8b44f7af; 0xffff5bb1; 0x895cd7be;
    0x6b901122; 0xfd987193; 0xa679438e; 0x49b40821;
    0xf61e2562; 0xc040b340; 0x265e5a51; 0xe9b6c7aa;
    0xd62f105d; 0x02441453; 0xd8a1e681; 0xe7d3fbc8;
    0x21e1cde6; 0xc33707d6; 0xf4d50d87; 0x455a14ed;
    0xa9e3e905; 0xfcefa3f8; 0x676f02d9; 0x8d2a4c8a;
    0xfffa3942; 0x8771f681; 0x6d9d6122; 0xfde5380c;
    0xa4beea44; 0x4bdecfa9; 0xf6bb4b60; 0xbebfbc70;
    0x289b7ec6; 0xeaa127fa; 0xd4ef3085; 0x04881d05;
    0xd9d4d039; 0xe6db99e5; 0x1fa27cf8; 0xc4ac5665;
    0xf4292244; 0x432aff97; 0xab9423a7; 0xfc93a039;
    0x655b59c3; 0x8f0ccc92; 0xffeff47d; 0x85845dd1;
    0x6fa87e4f; 0xfe2ce6e0; 0xa3014314; 0x4e0811a1;
    0xf7537e82; 0xbd3af235; 0x2ad7d2bb; 0xeb86d391 ].

(** Per-round left rotations. *)
Definition R : list Z :=
  [ 7; 12; 17; 22; 7; 12; 17; 22; 7; 12; 17; 22; 7; 12; 17; 22;
    5;  9; 14; 20; 5;  9; 14; 20; 5;  9; 14; 20; 5;  9; 14; 20;
    4; 11; 16; 23; 4; 11; 16; 23; 4; 11; 16; 23; 4; 11; 16; 23;
    6; 10; 15; 21; 6; 10; 15; 21; 6; 10; 15; 21; 6; 10; 15; 21 ].

Definition bytes_of_string (s : string) : list Z :=
  map (fun c => Z.of_N (N_of_ascii c)) (list_ascii_of_string s).

(** [n] little-endian bytes of [x]. *)
Definition le_bytes (n : nat) (x : Z) : list Z :=
  map (fun i => Z.shiftr x (8 * Z.of_nat i) mod 256) (seq 0 n).

Definition pad (msg : list Z) : list Z :=
  let len := Z.of_nat (length msg) in
  msg ++ [0x80] ++ repeat 0 (Z.to_nat ((55 - len) mod 64))
      ++ le_bytes 8 ((8 * len) mod 2 ^ 64).

Fixpoint words (bs : list Z) : list Z :=
  match bs with
  | b0 :: b1 :: b2 :: b3 :: rest =>
      (b0 + 2 ^ 8 * b1 + 2 ^ 16 * b2 + 2 ^ 24 * b3) :: words rest
  | _ => []
  end.

Definition state : Type := Z * Z * Z * Z.

Definition round (M : list Z) (st : state) (i : nat) : state :=
  let '(a, b, c, d) := st in
  let '(f, g) :=
    if (i <? 16)%nat then (Z.lor (Z.land b c) (Z.land (not32 b) d), i)
    else if (i <? 32)%nat then
      (Z.lor (Z.land d b) (Z.land (not32 d) c), ((5 * i + 1) mod 16)%nat)
    else if (i <? 48)%nat then
      (Z.lxor b (Z.lxor c d), ((3 * i + 5) mod 16)%nat)
    else (Z.lxor c (Z.lor b (not32 d)), ((7 * i) mod 16)%nat) in
  let f' := add32 (add32 (add32 f a) (nth i K 0)) (nth g M 0) in
  (d, add32 b (rotl32 f' (nth i R 0)), b, c).

Definition block (st : state) (M : list Z) : state :=
  let '(a0, b0, c0, d0) := st in
  let '(a, b, c, d) := fold_left (round M) (seq 0 64) st in
  (add32 a0 a, add32 b0 b, add32 c0 c, add32 d0 d).

Definition init : state := (0x67452301, 0xefcdab89, 0x98badcfe, 0x10325476).

Definition digest (msg : list Z) : state :=
  let ws := words (pad msg) in
  fold_left (fun st k => block st (firstn 16 (skipn (16 * k) ws)))
            (seq 0 (length ws / 16)%nat) init.

Definition hex_digit (n : Z) : ascii :=
  nth (Z.to_nat n) (list_ascii_of_string "0123456789abcdef") "0"%char.

Definition hex_byte (b : Z) : list ascii := [hex_digit (b / 16); hex_digit (b mod 16)].

Definition md5_hex (s : string) : string :=
  let '(a, b, c, d) := digest (bytes_of_string s) in
  string_of_list_ascii
    (concat (map hex_byte (le_bytes 4 a ++ le_bytes 4 b ++ le_bytes 4 c ++ le_bytes 4 d))).

End Md5.

(* ===================================================================== *)
(** ** JSON values, [JSON.stringify (v, null, 2)] and [JSON.parse] *)
(* ===================================================================== *)

Module Json.

(** A number is kept as the exact decimal [m * 10 ^ e], in normal form
    ([m] not a multiple of ten, and [e = 0] when [m = 0]); rounding to
    an IEEE double and exponent notation are outside the model.  Object
    members are kept in insertion order (the reordering of integer-like
    keys is outside the model). *)
#[warnings="-register-all"] Inductive value : Type :=
| JNull
| JBool (b : bool)
| JNum (m e : Z)
| JStr (s : string)
| JArr (xs : list value)
| JObj (kvs : list (string * value)).

Definition dquote : ascii := "034"%char.
Definition newline : ascii := "010"%char.
Definition nl : string := String newline EmptyString.

(** Literals below are written with ['] for the double quote and [~]
    for a line feed; [js] puts the real characters back. *)
Fixpoint js (s : string) : string :=
  match s with
  | EmptyString => EmptyString
  | String c r =>
      String (if Ascii.eqb c "'" then dquote
              else if Ascii.eqb c "~" then newline else c) (js r)
  end.

(** *** Printing *)

Definition hex_digit (n : N) : ascii :=
  nth (N.to_nat n) (list_ascii_of_string "0123456789abcdef") "0"%char.

(** [QuoteJSONString], character by character. *)
Definition escape_char (c : ascii) : string :=
  let n := N_of_ascii c in
  if Ascii.eqb c dquote then String "\" (String dquote EmptyString)
  else if Ascii.eqb c "\" then "\\"
  else if (n =? 8)%N then "\b"
  else if (n =? 12)%N then "\f"
  else if (n =? 10)%N then "\n"
  else if (n =? 13)%N then "\r"
  else if (n =? 9)%N then "\t"
  else if (n <? 32)%N then
    "\u00" +:+ String (hex_digit (n / 16)) (String (hex_digit (n mod 16)) EmptyString)
  else String c EmptyString.

Fixpoint escape (s : string) : string :=
  match s with
  | EmptyString => EmptyString
  | String c r => escape_char c +:+ escape r
  end.

Definition quote (s : string) : string :=
  String dquote (escape s +:+ String dquote EmptyString).

Fixpoint zeros (n : nat) : string :=
  match n with O => EmptyString | S k => String "0" (zeros k) end.

Definition number_to_string (m e : Z) : string :=
  let ds := NilZero.string_of_uint (N.to_uint (Z.abs_N m)) in
  let sign := if (m <? 0)%Z then "-" else EmptyString in
  if (0 <=? e)%Z then sign +:+ ds +:+ zeros (Z.to_nat e)
  else
    let k := Z.to_nat (- e) in
    let n := String.length ds in
    if (k <? n)%nat
    then sign +:+ substring 0 (n - k) ds +:+ "." +:+ substring (n - k) k ds
    else sign +:+ "0." +:+ zeros (k - n) +:+ ds.

Fixpoint join (sep : string) (l : list string) : string :=
  match l with
  | [] => EmptyString
  | [x] => x
  | x :: r => x +:+ sep +:+ join sep r
  end.

(** [SerializeJSONProperty] with a gap of two spaces; [indent] is the
    current indentation. *)
Fixpoint stringify_at (indent : string) (v : value) : string :=
  let inner := indent +:+ "  " in
  match v with
  | JNull => "null"
  | JBool true => "true"
  | JBool false => "false"
  | JNum m e => number_to_string m e
  | JStr s => quote s
  | JArr [] => "[]"
  | JArr xs =>
      "[" +:+ nl +:+ inner
          +:+ join ("," +:+ nl +:+ inner) (map (stringify_at inner) xs)
          +:+ nl +:+ indent +:+ "]"
  | JObj [] => "{}"
  | JObj kvs =>
      "{" +:+ nl +:+ inner
          +:+ join ("," +:+ nl +:+ inner)
                (map (fun kv => quote (fst kv) +:+ ": " +:+ stringify_at inner (snd kv)) kvs)
          +:+ nl +:+ indent +:+ "}"
  end.

(** [JSON.stringify (v, null, 2)]; the argument [None] is [undefined],
    for which the built-in returns [undefined]. *)
Definition stringify (v : option value) : option string :=
  match v with
  | None => None
  | Some x => Some (stringify_at EmptyString x)
  end.

(** *** Lexing: a character-driven automaton *)

Inductive token : Type :=
| TLBrace | TRBrace | TLBrack | TRBrack | TColon | TComma
| TScalar (v : value).

(** Where the automaton stands inside a number literal. *)
Inductive nphase : Type :=
| NMinus | NZero | NInt | NDot | NFrac | NE | NESign | NExp.

(** The digits read so far (last one first), the number of fraction
    digits among them, and the exponent. *)
Record numacc : Type := {
  n_neg : bool;
  n_digits : list Z;
  n_frac : Z;
  n_eneg : bool;
  n_exp : Z
}.

Inductive lstate : Type :=
| LIdle
| LLit (expect : list ascii) (v : value)
| LStr (acc : list ascii)
| LEsc (acc : list ascii)
| LUni (acc : list ascii) (cu : N) (todo : nat)
| LNum (ph : nphase) (a : numacc).

Definition digit_of (c : ascii) : option Z :=
  let n := N_of_ascii c in
  if ((48 <=? n) && (n <=? 57))%N then Some (Z.of_N (n - 48)) else None.

Definition hex_of (c : ascii) : option N :=
  let n := N_of_ascii c in
  if ((48 <=? n) && (n <=? 57))%N then Some (n - 48)%N
  else if ((97 <=? n) && (n <=? 102))%N then Some (n - 87)%N
  else if ((65 <=? n) && (n <=? 70))%N then Some (n - 55)%N
  else None.

Definition is_ws (c : ascii) : bool :=
  let n := N_of_ascii c in
  ((n =? 32) || (n =? 9) || (n =? 10) || (n =? 13))%N.

(** One UTF-16 unit of a [\uXXXX] escape, as UTF-8 bytes.  (A surrogate
    pair written as two escapes stays two three-byte units.) *)
Definition utf8 (cu : N) : list ascii :=
  if (cu <? 128)%N then [ascii_of_N cu]
  else if (cu <? 2048)%N then
    [ascii_of_N (192 + cu / 64); ascii_of_N (128 + cu mod 64)]
  else
    [ascii_of_N (224 + cu / 4096); ascii_of_N (128 + (cu / 64) mod 64);
     ascii_of_N (128 + cu mod 64)].

Fixpoint strip_zeros (ds : list Z) (e : Z) : list Z * Z :=
  match ds with
  | Z0 :: r => strip_zeros r (e + 1)
  | _ => (ds, e)
  end.

Definition number_of (a : numacc) : value :=
  let e0 := ((if n_eneg a then - n_exp a else n_exp a) - n_frac a)%Z in
  let '(ds, e) := strip_zeros (n_digits a) e0 in
  match ds with
  | [] => JNum 0 0
  | _ =>
      let m := fold_right (fun d acc => d + 10 * acc)%Z 0%Z ds in
      JNum (if n_neg a then (- m)%Z else m) e
  end.

Definition num0 (neg : bool) (ds : list Z) : numacc :=
  {| n_neg := neg; n_digits := ds; n_frac := 0; n_eneg := false; n_exp := 0 |}.

Definition push_digit (a : numacc) (d : Z) (frac : bool) : numacc :=
  {| n_neg := n_neg a; n_digits := d :: n_digits a;
     n_frac := if frac then (n_frac a + 1)%Z else n_frac a;
     n_eneg := n_eneg a; n_exp := n_exp a |}.

Definition push_exp (a : numacc) (d : Z) : numacc :=
  {| n_neg := n_neg a; n_digits := n_digits a; n_frac := n_frac a;
     n_eneg := n_eneg a; n_exp := (10 * n_exp a + d)%Z |}.

Definition neg_exp (a : numacc) : numacc :=
  {| n_neg := n_neg a; n_digits := n_digits a; n_frac := n_frac a;
     n_eneg := true; n_exp := n_exp a |}.

(** A character met between tokens. *)
Definition lex_idle (c : ascii) : option (lstate * list token) :=
  if is_ws c then Some (LIdle, [])
  else if Ascii.eqb c "{" then Some (LIdle, [TLBrace])
  else if Ascii.eqb c "}" then Some (LIdle, [TRBrace])
  else if Ascii.eqb c "[" then Some (LIdle, [TLBrack])
  else if Ascii.eqb c "]" then Some (LIdle, [TRBrack])
  else if Ascii.eqb c ":" then Some (LIdle, [TColon])
  else if Ascii.eqb c "," then Some (LIdle, [TComma])
  else if Ascii.eqb c dquote then Some (LStr [], [])
  else if Ascii.eqb c "-" then Some (LNum NMinus (num0 true []), [])
  else if Ascii.eqb c "t" then Some (LLit (list_ascii_of_string "rue") (JBool true), [])
  else if Ascii.eqb c "f" then Some (LLit (list_ascii_of_string "alse") (JBool false), [])
  else if Ascii.eqb c "n" then Some (LLit (list_ascii_of_string "ull") JNull, [])
  else
    match digit_of c with
    | Some Z0 => Some (LNum NZero (num0 false [0%Z]), [])
    | Some d => Some (LNum NInt (num0 false [d]), [])
    | None => None
    end.

(** The literal ends in front of [c]: emit it, then read [c] afresh. *)
Definition lex_number_done (a : numacc) (c : ascii) : option (lstate * list token) :=
  match lex_idle c with
  | Some (st, toks) => Some (st, TScalar (number_of a) :: toks)
  | None => None
  end.

Definition is_e (c : ascii) : bool := Ascii.eqb c "e" || Ascii.eqb c "E".

Definition lex_number (ph : nphase) (a : numacc) (c : ascii)
  : option (lstate * list token) :=
  match ph with
  | NMinus =>
      match digit_of c with
      | Some Z0 => Some (LNum NZero (push_digit a 0 false), [])
      | Some d => Some (LNum NInt (push_digit a d false), [])
      | None => None
      end
  | NZero =>
      if Ascii.eqb c "." then Some (LNum NDot a, [])
      else if is_e c then Some (LNum NE a, [])
      else lex_number_done a c
  | NInt =>
      match digit_of c with
      | Some d => Some (LNum NInt (push_digit a d false), [])
      | None =>
          if Ascii.eqb c "." then Some (LNum NDot a, [])
          else if is_e c then Some (LNum NE a, [])
          else lex_number_done a c
      end
  | NDot =>
      match digit_of c with
      | Some d => Some (LNum NFrac (push_digit a d true), [])
      | None => None
      end
  | NFrac =>
      match digit_of c with
      | Some d => Some (LNum NFrac (push_digit a d true), [])
      | None => if is_e c then Some (LNum NE a, []) else lex_number_done a c
      end
  | NE =>
      if Ascii.eqb c "+" then Some (LNum NESign a, [])
      else if Ascii.eqb c "-" then Some (LNum NESign (neg_exp a), [])
      else match digit_of c with
           | Some d => Some (LNum NExp (push_exp a d), [])
           | None => None
           end
  | NESign =>
      match digit_of c with
      | Some d => Some (LNum NExp (push_exp a d), [])
      | None => None
      end
  | NExp =>
      match digit_of c with
      | Some d => Some (LNum NExp (push_exp a d), [])
      | None => lex_number_done a c
      end
  end.

Definition lex_escape (acc : list ascii) (c : ascii) : option (lstate * list token) :=
  if Ascii.eqb c dquote then Some (LStr (dquote :: acc), [])
  else if Ascii.eqb c "\" then Some (LStr ("\"%char :: acc), [])
  else if Ascii.eqb c "/" then Some (LStr ("/"%char :: acc), [])
  else if Ascii.eqb c "b" then Some (LStr ("008"%char :: acc), [])
  else if Ascii.eqb c "f" then Some (LStr ("012"%char :: acc), [])
  else if Ascii.eqb c "n" then Some (LStr ("010"%char :: acc), [])
  else if Ascii.eqb c "r" then Some (LStr ("013"%char :: acc), [])
  else if Ascii.eqb c "t" then Some (LStr ("009"%char :: acc), [])
  else if Ascii.eqb c "u" then Some (LUni acc 0 4, [])
  else None.

Definition lex_step (st : lstate) (c : ascii) : option (lstate * list token) :=
  match st with
  | LIdle => lex_idle c
  | LLit [] _ => None
  | LLit (x :: rest) v =>
      if Ascii.eqb c x
      then match rest with
           | [] => Some (LIdle, [TScalar v])
           | _ => Some (LLit rest v, [])
           end
      else None
  | LStr acc =>
      if Ascii.eqb c dquote
      then Some (LIdle, [TScalar (JStr (string_of_list_ascii (rev acc)))])
      else if Ascii.eqb c "\" then Some (LEsc acc, [])
      else if (N_of_ascii c <? 32)%N then None
      else Some (LStr (c :: acc), [])
  | LEsc acc => lex_escape acc c
  | LUni acc cu todo =>
      match hex_of c with
      | Some h =>
          let cu' := (16 * cu + h)%N in
          match todo with
          | 0%nat | 1%nat => Some (LStr (rev (utf8 cu') ++ acc), [])
          | S k => Some (LUni acc cu' k, [])
          end
      | None => None
      end
  | LNum ph a => lex_number ph a c
  end.

(** End of input: only between tokens, or after a complete number. *)
Definition lex_end (st : lstate) : option (list token) :=
  match st with
  | LIdle => Some []
  | LNum (NZero | NInt | NFrac | NExp) a => Some [TScalar (number_of a)]
  | _ => None
  end.

Fixpoint lex_from (st : lstate) (s : string) : option (list token) :=
  match s with
  | EmptyString => lex_end st
  | String c rest =>
      match lex_step st c with
      | Some (st', toks) =>
          match lex_from st' rest with
          | Some more => Some (toks ++ more)
          | None => None
          end
      | None => None
      end
  end.

(** *** Parsing: a pushdown automaton over the tokens *)

(** An open container: an array with the elements read so far, an
    object waiting for a key, an object waiting for the value of [k]
    (elements and members last one first). *)
Inductive frame : Type :=
| FArr (acc : list value)
| FKey (acc : list (string * value))
| FVal (acc : list (string * value)) (k : string).

Inductive pmode : Type :=
| PValue
| PValueOrClose
| PKeyOrClose
| PKey
| PColon (k : string)
| PDone (v : value).

(** [CreateDataProperty]: a repeated key keeps its first position and
    takes the last value. *)
Fixpoint obj_set (k : string) (v : value) (kvs : list (string * value))
  : list (string * value) :=
  match kvs with
  | [] => [(k, v)]
  | (k', v') :: r =>
      if String.eqb k' k then (k', v) :: r else (k', v') :: obj_set k v r
  end.

Definition build_object (members : list (string * value)) : value :=
  JObj (fold_left (fun o kv => obj_set (fst kv) (snd kv) o) members []).

Definition pvalue (st : list frame) (t : token) (may_close : bool)
  : option (pmode * list frame) :=
  match t with
  | TScalar v => Some (PDone v, st)
  | TLBrack => Some (PValueOrClose, FArr [] :: st)
  | TLBrace => Some (PKeyOrClose, FKey [] :: st)
  | TRBrack =>
      match may_close, st with
      | true, FArr [] :: st' => Some (PDone (JArr []), st')
      | _, _ => None
      end
  | _ => None
  end.

Definition pkey (st : list frame) (t : token) (may_close : bool)
  : option (pmode * list frame) :=
  match t with
  | TScalar (JStr k) => Some (PColon k, st)
  | TRBrace =>
      match may_close, st with
      | true, FKey [] :: st' => Some (PDone (JObj []), st')
      | _, _ => None
      end
  | _ => None
  end.

Definition pstep (m : pmode) (st : list frame) (t : token)
  : option (pmode * list frame) :=
  match m with
  | PValue => pvalue st t false
  | PValueOrClose => pvalue st t true
  | PKeyOrClose => pkey st t true
  | PKey => pkey st t false
  | PColon k =>
      match t, st with
      | TColon, FKey acc :: st' => Some (PValue, FVal acc k :: st')
      | _, _ => None
      end
  | PDone v =>
      match t, st with
      | TComma, FArr acc :: st' => Some (PValue, FArr (v :: acc) :: st')
      | TComma, FVal acc k :: st' => Some (PKey, FKey ((k, v) :: acc) :: st')
      | TRBrack, FArr acc :: st' => Some (PDone (JArr (rev (v :: acc))), st')
      | TRBrace, FVal acc k :: st' =>
          Some (PDone (build_object (rev ((k, v) :: acc))), st')
      | _, _ => None
      end
  end.

Fixpoint run_tokens (m : pmode) (st : list frame) (ts : list token) : option value :=
  match ts with
  | [] => match m, st with PDone v, [] => Some v | _, _ => None end
  | t :: r =>
      match pstep m st t with
      | Some (m', st') => run_tokens m' st' r
      | None => None
      end
  end.

(** [JSON.parse]: [None] is the [SyntaxError] the built-in throws. *)
Definition parse (s : string) : option value :=
  match lex_from LIdle s with
  | Some ts => run_tokens PValue [] ts
  | None => None
  end.

End Json.

(* ===================================================================== *)
(** ** Paths ([path.join], [path.dirname], [path.basename], POSIX) *)
(* ===================================================================== *)

Module Path.

(** [path.join (a, b)] for an [a] that is already normalised and a file
    name [b]; an empty first segment is ignored.  Paths are compared as
    strings. *)
Definition join (a b : string) : string :=
  match a with
  | EmptyString => b
  | _ => a +:+ "/" +:+ b
  end.

(** The text before and after the last [/]. *)
Fixpoint split_last (s : string) : option (string * string) :=
  match s with
  | EmptyString => None
  | String c r =>
      match split_last r with
      | Some (d, b) => Some (String c d, b)
      | None => if Ascii.eqb c "/" then Some (EmptyString, r) else None
      end
  end.

Definition dirname (p : string) : string :=
  match split_last p with
  | Some (EmptyString, _) => "/"
  | Some (d, _) => d
  | None => "."
  end.

Definition basename (p : string) : string :=
  match split_last p with
  | Some (_, b) => b
  | None => p
  end.

Fixpoint has_slash (s : string) : bool :=
  match s with
  | EmptyString => false
  | String c r => Ascii.eqb c "/" || has_slash r
  end.

End Path.

(* ===================================================================== *)
(** ** The provider and the platform state it runs against *)
(* ===================================================================== *)

(** [vscode.Uri]: the components the code reads; [uri_toString] is the
    result of [uri.toString ()]. *)
Record Uri : Type := {
  uri_scheme : string;
  uri_authority : string;
  uri_path : string;
  uri_toString : string
}.

(** The variables captured by the closure that [_getWorkspaceHash] hands
    to [setTimeout]. *)
Record Timer : Type := {
  t_uri : Uri;
  t_normalizedAuthority : string;
  t_uriString : string
}.

(** An open [fs.FSWatcher]; its callback captured [vaultFilePath]
    (the watched directory is [path.dirname] of it). *)
Record Watcher : Type := {
  w_id : nat;
  w_vaultFilePath : string
}.

(** What [webview.postMessage] delivered to the presentation layer. *)
Inductive posted : Type :=
| LoadState (value : option Json.value)
| InitRequest.

(** The fields of [SidebarMarkdownNotesProvider].  [_view] records
    whether [resolveWebviewView] has run; [_lastSavedStateStr] is [None]
    when it holds [undefined] (what [JSON.stringify (undefined)]
    returns); [config_vaultPath] is [this.config.vaultPath]. *)
Record Provider : Type := {
  _view : bool;
  _fileWatcher : option nat;
  _lastSavedStateStr : option string;
  config_vaultPath : string
}.

(** The provider together with what it reads and writes: the workspace
    folders and home directory of the window, regular files with their
    contents, directories, open watcher handles and the number of the
    next one, the messages posted to the webview, the error messages
    shown, and the callbacks waiting in [setTimeout]. *)
Record World : Type := {
  this : Provider;
  workspaceFolders : option (list Uri);
  homedir : string;
  files : gmap string string;
  dirs : gset string;
  watchers : list Watcher;
  next_watcher : nat;
  outbox : list posted;
  errors_shown : list string;
  timers : list Timer
}.

Definition with_this (f : Provider -> Provider) (w : World) : World :=
  {| this := f (this w); workspaceFolders := workspaceFolders w;
     homedir := homedir w; files := files w; dirs := dirs w;
     watchers := watchers w; next_watcher := next_watcher w;
     outbox := outbox w; errors_shown := errors_shown w; timers := timers w |}.

Definition with_files (f : gmap string string -> gmap string string) (w : World) : World :=
  {| this := this w; workspaceFolders := workspaceFolders w;
     homedir := homedir w; files := f (files w); dirs := dirs w;
     watchers := watchers w; next_watcher := next_watcher w;
     outbox := outbox w; errors_shown := errors_shown w; timers := timers w |}.

Definition with_dirs (f : gset string -> gset string) (w : World) : World :=
  {| this := this w; workspaceFolders := workspaceFolders w;
     homedir := homedir w; files := files w; dirs := f (dirs w);
     watchers := watchers w; next_watcher := next_watcher w;
     outbox := outbox w; errors_shown := errors_shown w; timers := timers w |}.

Definition with_watchers (f : list Watcher -> list Watcher) (n : nat) (w : World) : World :=
  {| this := this w; workspaceFolders := workspaceFolders w;
     homedir := homedir w; files := files w; dirs := dirs w;
     watchers := f (watchers w); next_watcher := n;
     outbox := outbox w; errors_shown := errors_shown w; timers := timers w |}.

Definition with_outbox (f : list posted -> list posted) (w : World) : World :=
  {| this := this w; workspaceFolders := workspaceFolders w;
     homedir := homedir w; files := files w; dirs := dirs w;
     watchers := watchers w; next_watcher := next_watcher w;
     outbox := f (outbox w); errors_shown := errors_shown w; timers := timers w |}.

Definition with_errors (f : list string -> list string) (w : World) : World :=
  {| this := this w; workspaceFolders := workspaceFolders w;
     homedir := homedir w; files := files w; dirs := dirs w;
     watchers := watchers w; next_watcher := next_watcher w;
     outbox := outbox w; errors_shown := f (errors_shown w); timers := timers w |}.

Definition with_timers (f : list Timer -> list Timer) (w : World) : World :=
  {| this := this w; workspaceFolders := workspaceFolders w;
     homedir := homedir w; files := files w; dirs := dirs w;
     watchers := watchers w; next_watcher := next_watcher w;
     outbox := outbox w; errors_shown := errors_shown w; timers := f (timers w) |}.

(** *** The monad of handlers *)

Inductive exn : Type := SyntaxError | TypeError | ENOENT.

(** [Stuck]: the step left the modelled fragment of JavaScript (see
    [append_to_current_page]); no [catch] resumes from it. *)
Inductive outcome (A : Type) : Type :=
| Ret (a : A)
| Throw (e : exn)
| Stuck.
Arguments Ret {A} a.
Arguments Throw {A} e.
Arguments Stuck {A}.

Definition M (A : Type) : Type := World -> outcome A * World.

Definition ret {A} (a : A) : M A := fun w => (Ret a, w).
Definition throw {A} (e : exn) : M A := fun w => (Throw e, w).
Definition stuck {A} : M A := fun w => (Stuck, w).
Definition bind {A B} (m : M A) (k : A -> M B) : M B :=
  fun w =>
    match m w with
    | (Ret a, w') => k a w'
    | (Throw e, w') => (Throw e, w')
    | (Stuck, w') => (Stuck, w')
    end.
(** [try { m } catch (e) { h e }] *)
Definition try_catch {A} (m : M A) (h : exn -> M A) : M A :=
  fun w =>
    match m w with
    | (Throw e, w') => h e w'
    | r => r
    end.
Definition gets {A} (f : World -> A) : M A := fun w => (Ret (f w), w).
Definition modify (f : World -> World) : M unit := fun w => (Ret tt, f w).

#[global] Instance M_ret : MRet M := @ret.
#[global] Instance M_bind : MBind M := fun A B k m => bind m k.

(** *** Platform calls *)

Definition fs_existsSync (p : string) : M bool :=
  gets (fun w => bool_decide (p ∈ dirs w) || bool_decide (is_Some (files w !! p))).

(** [fs.mkdirSync (d, { recursive: true })]; it is taken to succeed. *)
Definition fs_mkdirSync (d : string) : M unit :=
  modify (with_dirs (fun ds => {[d]} ∪ ds)).

Definition fs_readFileSync (p : string) : M string :=
  fun w =>
    match files w !! p with
    | Some data => (Ret data, w)
    | None => (Throw ENOENT, w)
    end.

(** [fs.writeFileSync (p, data, 'utf8')]: data that is not a string is
    rejected with a [TypeError] (Node 14 and later); the parent
    directory has to exist. *)
Definition fs_writeFileSync (p : string) (data : option string) : M unit :=
  fun w =>
    match data with
    | None => (Throw TypeError, w)
    | Some s =>
        if bool_decide (Path.dirname p ∈ dirs w)
        then (Ret tt, with_files (fun fs => <[p := s]> fs) w)
        else (Throw ENOENT, w)
    end.

(** [fs.watch (dir, callback)], the callback being the one of
    [_startWatching] for [vaultFilePath]. *)
Definition fs_watch (dir vaultFilePath : string) : M nat :=
  fun w =>
    if bool_decide (dir ∈ dirs w)
    then
      let h := next_watcher w in
      (Ret h,
       with_watchers (fun ws => ws ++ [{| w_id := h; w_vaultFilePath := vaultFilePath |}])
                     (S h) w)
    else (Throw ENOENT, w).

Definition FSWatcher_close (h : nat) : M unit :=
  modify (fun w =>
    with_watchers (filter (fun x => w_id x ≠ h)) (next_watcher w) w).

Definition JSON_parse (s : string) : M Json.value :=
  match Json.parse s with
  | Some v => ret v
  | None => throw SyntaxError
  end.

(** [this._view?.webview.postMessage (msg)] *)
Definition postMessage (msg : posted) : M unit :=
  fun w =>
    if _view (this w)
    then (Ret tt, with_outbox (fun o => o ++ [msg]) w)
    else (Ret tt, w).

Definition showErrorMessage (msg : string) : M unit :=
  modify (with_errors (fun l => l ++ [msg])).

Definition setTimeout (t : Timer) : M unit :=
  modify (with_timers (fun l => l ++ [t])).

(** [this._lastSavedStateStr = s] *)
Definition cached (s : option string) (w : World) : World :=
  with_this (fun p =>
    {| _view := _view p; _fileWatcher := _fileWatcher p;
       _lastSavedStateStr := s; config_vaultPath := config_vaultPath p |}) w.

Definition set_lastSavedStateStr (s : option string) : M unit :=
  modify (cached s).

(** [this._fileWatcher = h] *)
Definition watching (h : option nat) (w : World) : World :=
  with_this (fun p =>
    {| _view := _view p; _fileWatcher := h;
       _lastSavedStateStr := _lastSavedStateStr p;
       config_vaultPath := config_vaultPath p |}) w.

Definition set_fileWatcher (h : option nat) : M unit :=
  modify (watching h).

(* ===================================================================== *)
(** ** The methods of [SidebarMarkdownNotesProvider] *)
(* ===================================================================== *)

(** [s.indexOf (c)], [-1] when [c] does not occur. *)
Fixpoint indexOf (c : ascii) (s : string) : Z :=
  match s with
  | EmptyString => -1
  | String a r =>
      if Ascii.eqb a c then 0
      else let i := indexOf c r in if (i =? -1)%Z then -1 else (i + 1)%Z
  end.

(** [s.substring (n)] *)
Fixpoint substring_from (n : nat) (s : string) : string :=
  match n, s with
  | O, _ => s
  | S k, String _ r => substring_from k r
  | S _, EmptyString => EmptyString
  end.

Definition nonempty (s : string) : bool :=
  match s with EmptyString => false | _ => true end.

Definition normalizedAuthority (authority : string) : string :=
  let plusIndex := indexOf "+" authority in
  if negb (plusIndex =? -1)%Z
  then substring_from (Z.to_nat (plusIndex + 1)) authority
  else authority.

Definition _getVaultDir : M string :=
  vaultPath ← gets (fun w => config_vaultPath (this w));
  if nonempty vaultPath then mret vaultPath
  else home ← gets homedir; mret (Path.join home ".sidebar-markdown-notes").

Definition notes_file (workspaceHash : string) : string :=
  "notes_" +:+ workspaceHash +:+ ".json".

Definition _getWorkspaceHash : M string :=
  workspaceFolders ← gets workspaceFolders;
  match workspaceFolders with
  | Some (uri :: _) =>
      let normalizedAuthority := normalizedAuthority (uri_authority uri) in
      let uriString := normalizedAuthority +:+ uri_path uri in
      setTimeout {| t_uri := uri; t_normalizedAuthority := normalizedAuthority;
                    t_uriString := uriString |};;
      mret (Md5.md5_hex uriString)
  | _ => mret (Md5.md5_hex "global")
  end.

(** *** The callback handed to [setTimeout] *)

Definition debugMsg (t : Timer) : string :=
  Json.nl +:+ Json.nl +:+ "```json" +:+ Json.nl
  +:+ Json.stringify_at EmptyString
        (Json.JObj [("toString", Json.JStr (uri_toString (t_uri t)));
                    ("scheme", Json.JStr (uri_scheme (t_uri t)));
                    ("authority", Json.JStr (uri_authority (t_uri t)));
                    ("path", Json.JStr (uri_path (t_uri t)));
                    ("normalizedAuthority", Json.JStr (t_normalizedAuthority t));
                    ("finalUriString", Json.JStr (t_uriString t))])
  +:+ Json.nl +:+ "```".

Definition truthy (v : Json.value) : bool :=
  match v with
  | Json.JNull => false
  | Json.JBool b => b
  | Json.JNum m _ => negb (m =? 0)%Z
  | Json.JStr s => nonempty s
  | Json.JArr _ | Json.JObj _ => true
  end.

(** [v.k] for a parsed value: [None] is [undefined]. *)
Definition get_member (v : Json.value) (k : string) : option Json.value :=
  match v with
  | Json.JObj kvs => snd <$> List.find (fun kv => String.eqb (fst kv) k) kvs
  | _ => None
  end.

Definition set_member (v : Json.value) (k : string) (x : Json.value) : Json.value :=
  match v with
  | Json.JObj kvs => Json.JObj (Json.obj_set k x kvs)
  | _ => v
  end.

(** The text a primitive contributes to [el + debugMsg]. *)
Definition concat_operand (el : Json.value) : option string :=
  match el with
  | Json.JStr s => Some s
  | Json.JNull => Some "null"%string
  | Json.JBool true => Some "true"%string
  | Json.JBool false => Some "false"%string
  | Json.JNum m e => Some (Json.number_to_string m e)
  | _ => None
  end.

Inductive patch : Type :=
| PatchSkip
| PatchTo (state : Json.value)
| PatchStuck.

(** [if (state && state.pages && state.pages.length > 0)
      state.pages[state.currentPage] += debugMsg]
    [PatchSkip]: the condition is false.  [PatchTo]: [pages] is an array
    and [currentPage] a number that indexes one of its primitive
    elements.  Every other shape ([pages] a string or an object, an
    index out of range, an element that is itself a container) is
    outside the modelled fragment. *)
Definition append_to_current_page (state : Json.value) (msg : string) : patch :=
  if negb (truthy state) then PatchSkip
  else
    match get_member state "pages" with
    | None => PatchSkip
    | Some pages =>
        if negb (truthy pages) then PatchSkip
        else
          match pages with
          | Json.JArr [] => PatchSkip
          | Json.JArr xs =>
              match get_member state "currentPage" with
              | Some (Json.JNum m e) =>
                  if ((0 <=? m) && (0 <=? e))%Z
                  then
                    let i := Z.to_nat (m * 10 ^ e) in
                    match xs !! i with
                    | Some el =>
                        match concat_operand el with
                        | Some s =>
                            PatchTo (set_member state "pages"
                                       (Json.JArr (<[i := Json.JStr (s +:+ msg)]> xs)))
                        | None => PatchStuck
                        end
                    | None => PatchStuck
                    end
                  else PatchStuck
              | _ => PatchStuck
              end
          | Json.JBool _ | Json.JNum _ _ => PatchSkip
          | _ => PatchStuck
          end
    end.

Definition timer_callback (t : Timer) : M unit :=
  try_catch
    (let debugMsg := debugMsg t in
     lastSaved ← gets (fun w => _lastSavedStateStr (this w));
     match lastSaved with
     | Some str =>
         if nonempty str
         then
           vaultDir ← _getVaultDir;
           let workspaceHash := Md5.md5_hex (t_uriString t) in
           let vaultFilePath := Path.join vaultDir (notes_file workspaceHash) in
           state ← JSON_parse str;
           match append_to_current_page state debugMsg with
           | PatchSkip => mret tt
           | PatchStuck => stuck
           | PatchTo state' =>
               set_lastSavedStateStr (Json.stringify (Some state'));;
               lastSaved' ← gets (fun w => _lastSavedStateStr (this w));
               fs_writeFileSync vaultFilePath lastSaved';;
               postMessage (LoadState (Some state'))
           end
         else mret tt
     | None => mret tt
     end)
    (fun _ => mret tt).

(** *** [_startWatching] and the callback it registers *)

Definition watch_callback (vaultFilePath : string) (filename : option string) : M unit :=
  let vaultFileName := Path.basename vaultFilePath in
  if bool_decide (filename = Some vaultFileName)
  then
    present ← fs_existsSync vaultFilePath;
    if (present : bool)
    then
      try_catch
        (fileData ← fs_readFileSync vaultFilePath;
         lastSaved ← gets (fun w => _lastSavedStateStr (this w));
         if negb (bool_decide (Some fileData = lastSaved))
         then
           set_lastSavedStateStr (Some fileData);;
           state ← JSON_parse fileData;
           postMessage (LoadState (Some state))
         else mret tt)
        (fun _ => mret tt)
    else mret tt
  else mret tt.

Definition _startWatching (vaultFilePath : string) : M unit :=
  fileWatcher ← gets (fun w => _fileWatcher (this w));
  match fileWatcher with
  | Some h => FSWatcher_close h;; set_fileWatcher None
  | None => mret tt
  end;;
  try_catch
    (let vaultDir := Path.dirname vaultFilePath in
     h ← fs_watch vaultDir vaultFilePath;
     set_fileWatcher (Some h))
    (fun _ => mret tt).

(** *** The message handler of [resolveWebviewView] *)

(** Messages from the webview; [value] is [None] when [data.value] is
    [undefined].  [log], [updateStatusBar] and [exportPage] only drive
    the user interface. *)
Inductive message : Type :=
| MsgLog (value : string)
| MsgUpdateStatusBar (value : option string)
| MsgInit (value : option Json.value)
| MsgSaveState (value : option Json.value)
| MsgExportPage (value : string).

Definition parse_error_text : string :=
  "sidebar-markdown-notes: Failed to parse notes vault file.".

Definition onDidReceiveMessage (data : message) : M unit :=
  match data with
  | MsgInit value =>
      workspaceHash ← _getWorkspaceHash;
      vaultDir ← _getVaultDir;
      dirPresent ← fs_existsSync vaultDir;
      (if negb dirPresent then fs_mkdirSync vaultDir else mret tt);;
      let vaultFilePath := Path.join vaultDir (notes_file workspaceHash) in
      filePresent ← fs_existsSync vaultFilePath;
      (if (filePresent : bool)
       then
         try_catch
           (fileData ← fs_readFileSync vaultFilePath;
            set_lastSavedStateStr (Some fileData);;
            state ← JSON_parse fileData;
            postMessage (LoadState (Some state)))
           (fun _ => showErrorMessage parse_error_text)
       else
         set_lastSavedStateStr (Json.stringify value);;
         lastSaved ← gets (fun w => _lastSavedStateStr (this w));
         fs_writeFileSync vaultFilePath lastSaved;;
         postMessage (LoadState value));;
      _startWatching vaultFilePath
  | MsgSaveState value =>
      workspaceHash ← _getWorkspaceHash;
      vaultDir ← _getVaultDir;
      dirPresent ← fs_existsSync vaultDir;
      (if negb dirPresent then fs_mkdirSync vaultDir else mret tt);;
      let vaultFilePath := Path.join vaultDir (notes_file workspaceHash) in
      set_lastSavedStateStr (Json.stringify value);;
      lastSaved ← gets (fun w => _lastSavedStateStr (this w));
      fs_writeFileSync vaultFilePath lastSaved
  | MsgLog _ | MsgUpdateStatusBar _ | MsgExportPage _ => mret tt
  end.

(** The listener of [vscode.workspace.onDidChangeConfiguration];
    [affects] is [e.affectsConfiguration ('sidebar-markdown-notes')] and
    [vaultPath] what the fresh [getConfig ()] reads. *)
Definition onDidChangeConfiguration (affects : bool) (vaultPath : string) : M unit :=
  if affects
  then
    modify (with_this (fun p =>
      {| _view := _view p; _fileWatcher := _fileWatcher p;
         _lastSavedStateStr := _lastSavedStateStr p;
         config_vaultPath := vaultPath |}));;
    postMessage InitRequest
  else mret tt.

Definition resolveWebviewView : M unit :=
  modify (with_this (fun p =>
    {| _view := true; _fileWatcher := _fileWatcher p;
       _lastSavedStateStr := _lastSavedStateStr p;
       config_vaultPath := config_vaultPath p |})).

(** *** The event loop *)

(** One callback at a time: the view is resolved, a message arrives,
    the watcher [h] reports [filename], the oldest pending timer
    expires, the configuration changes, or another process writes or
    removes a file.  Messages and configuration events reach the
    provider only through the listeners that [resolveWebviewView]
    registers.

    [EvTimerOutside] stands for an expiry whose callback leaves the
    modelled fragment of JavaScript (where [EvTimer] is [Stuck]).  All
    the callback can do after the patch is assign the cache, write that
    string to the vault file and post a state, or throw into its own
    [catch]; [result] says which string and state, [None] when the
    patch itself threw. *)
Inductive event : Type :=
| EvResolveView
| EvMessage (data : message)
| EvWatch (h : nat) (filename : option string)
| EvTimer
| EvTimerOutside (result : option (string * Json.value))
| EvConfiguration (affects : bool) (vaultPath : string)
| EvExternalWrite (p data : string)
| EvExternalRemove (p : string).

Definition timer_callback_outside (t : Timer)
    (result : option (string * Json.value)) : M unit :=
  try_catch
    (match result with
     | Some (str, state') =>
         vaultDir ← _getVaultDir;
         let workspaceHash := Md5.md5_hex (t_uriString t) in
         let vaultFilePath := Path.join vaultDir (notes_file workspaceHash) in
         set_lastSavedStateStr (Some str);;
         fs_writeFileSync vaultFilePath (Some str);;
         postMessage (LoadState (Some state'))
     | None => mret tt
     end)
    (fun _ => mret tt).

Definition dispatch (ev : event) : M unit :=
  match ev with
  | EvResolveView => resolveWebviewView
  | EvMessage data =>
      resolved ← gets (fun w => _view (this w));
      if (resolved : bool) then onDidReceiveMessage data else mret tt
  | EvWatch h filename =>
      ws ← gets watchers;
      match List.find (fun x => Nat.eqb (w_id x) h) ws with
      | Some x => watch_callback (w_vaultFilePath x) filename
      | None => mret tt
      end
  | EvTimer =>
      ts ← gets timers;
      match ts with
      | t :: rest => modify (with_timers (fun _ => rest));; timer_callback t
      | [] => mret tt
      end
  | EvTimerOutside result =>
      ts ← gets timers;
      match ts with
      | t :: rest =>
          modify (with_timers (fun _ => rest));; timer_callback_outside t result
      | [] => mret tt
      end
  | EvConfiguration affects vaultPath =>
      resolved ← gets (fun w => _view (this w));
      if (resolved : bool) then onDidChangeConfiguration affects vaultPath else mret tt
  | EvExternalWrite p data => modify (with_files (fun fs => <[p := data]> fs))
  | EvExternalRemove p => modify (with_files (fun fs => delete p fs))
  end.

(** An exception that escapes a callback is reported by the host and the
    loop goes on; [None] when a step left the modelled fragment. *)
Fixpoint run (evs : list event) (w : World) : option World :=
  match evs with
  | [] => Some w
  | ev :: rest =>
      match dispatch ev w with
      | (Stuck, _) => None
      | (_, w') => run rest w'
      end
  end.

(** The state right after the provider is constructed. *)
Definition initial (folders : option (list Uri)) (home vaultPath : string)
    (fs : gmap string string) (ds : gset string) : World :=
  {| this := {| _view := false; _fileWatcher := None;
                _lastSavedStateStr := Some EmptyString;
                config_vaultPath := vaultPath |};
     workspaceFolders := folders; homedir := home;
     files := fs; dirs := ds; watchers := []; next_watcher := 0;
     outbox := []; errors_shown := []; timers := [] |}.

(* ===================================================================== *)
(** ** Derived notions used in the statements *)
(* ===================================================================== *)

Ltac unfold_monad :=
  unfold mbind, M_bind, mret, M_ret, bind, ret, throw, stuck, gets, modify,
    try_catch in *.

Ltac unfold_platform :=
  unfold fs_existsSync, fs_mkdirSync, fs_readFileSync, fs_writeFileSync,
    fs_watch, FSWatcher_close, JSON_parse, postMessage, showErrorMessage,
    setTimeout, set_lastSavedStateStr, set_fileWatcher in *.

(** What [_getVaultDir] and [_getWorkspaceHash] return in [w], and the
    path the handlers build from them. *)
Definition vaultDir_of (w : World) : string :=
  if nonempty (config_vaultPath (this w)) then config_vaultPath (this w)
  else Path.join (homedir w) ".sidebar-markdown-notes".

Definition uriString_of (w : World) : string :=
  match workspaceFolders w with
  | Some (uri :: _) => normalizedAuthority (uri_authority uri) +:+ uri_path uri
  | _ => "global"
  end.

Definition workspaceHash_of (w : World) : string := Md5.md5_hex (uriString_of w).

Definition vaultFilePath_of (w : World) : string :=
  Path.join (vaultDir_of w) (notes_file (workspaceHash_of w)).

(** The timers [_getWorkspaceHash] leaves pending. *)
Definition scheduled (w : World) : list Timer :=
  match workspaceFolders w with
  | Some (uri :: _) =>
      [{| t_uri := uri;
          t_normalizedAuthority := normalizedAuthority (uri_authority uri);
          t_uriString := normalizedAuthority (uri_authority uri) +:+ uri_path uri |}]
  | _ => []
  end.

(** The world once [_getWorkspaceHash] has scheduled its timer and the
    vault directory has been created if it was missing. *)
Definition prepared (w : World) : World :=
  let w1 := with_timers (fun l => l ++ scheduled w) w in
  if bool_decide (vaultDir_of w ∈ dirs w) || bool_decide (is_Some (files w !! vaultDir_of w))
  then w1
  else with_dirs (fun ds => {[vaultDir_of w]} ∪ ds) w1.

(** The vault file of a window without workspace folder, for the home
    directory [/home/u]. *)
Definition example_path : string :=
  "/home/u/.sidebar-markdown-notes/notes_9c70933aff6b2a6d08c687a6cbb6b765.json".

(** The world of the examples: the view is resolved, a watcher is open
    on [example_path], and the vault file holds [content] (it is absent
    for [None]) while the provider remembers [lastSaved]. *)
Definition example_world (lastSaved : option string) (content : option string) : World :=
  {| this := {| _view := true; _fileWatcher := Some 0%nat;
                _lastSavedStateStr := lastSaved; config_vaultPath := EmptyString |};
     workspaceFolders := None; homedir := "/home/u";
     files := match content with
              | Some c => {[ example_path := c ]}
              | None => ∅
              end;
     dirs := {[ "/home/u/.sidebar-markdown-notes"%string ]};
     watchers := [{| w_id := 0; w_vaultFilePath := example_path |}];
     next_watcher := 1;
     outbox := []; errors_shown := []; timers := [] |}.

(** A computation leaves the observation [f] of the world alone,
    whatever it returns or throws. *)
Definition keeps {X A} (f : World -> X) (m : M A) : Prop :=
  forall w, f (snd (m w)) = f w.

(** The part of the world that concerns watcher handles. *)
Definition watch_state (w : World) : list Watcher * nat * option nat :=
  (watchers w, next_watcher w, _fileWatcher (this w)).

(** The open handles are exactly the one [_fileWatcher] refers to, and
    handle numbers are not reused. *)
Definition single_watcher (w : World) : Prop :=
  match _fileWatcher (this w) with
  | Some h => exists p, watchers w = [{| w_id := h; w_vaultFilePath := p |}]
  | None => watchers w = []
  end
  /\ Forall (fun x => (w_id x < next_watcher w)%nat) (watchers w).

(** The notes of the examples: one page [a], shown. *)
Definition example_notes : Json.value :=
  Json.JObj [("pages", Json.JArr [Json.JStr "a"]); ("currentPage", Json.JNum 0 0)].

(** A remote folder, its vault file, and a window opened on it with
    one page of notes saved in that file and remembered by the
    provider. *)
Definition example_uri : Uri :=
  {| uri_scheme := "vscode-remote"; uri_authority := "ssh-remote+box";
     uri_path := "/srv/app";
     uri_toString := "vscode-remote://ssh-remote%2Bbox/srv/app" |}.

Definition example_remote_path : string :=
  "/home/u/.sidebar-markdown-notes/notes_bee990fa36eb65c40643c347c08e4ec9.json".

Definition example_remote_world : World :=
  {| this := {| _view := true; _fileWatcher := None;
                _lastSavedStateStr := Json.stringify (Some example_notes);
                config_vaultPath := EmptyString |};
     workspaceFolders := Some [example_uri]; homedir := "/home/u";
     files := {[ example_remote_path := Json.stringify_at EmptyString example_notes ]};
     dirs := {[ "/home/u/.sidebar-markdown-notes"%string ]};
     watchers := []; next_watcher := 0;
     outbox := []; errors_shown := []; timers := [] |}.

(** The page after the delayed callback has run on it. *)
Definition example_notes_patched : Json.value :=
  Json.JObj
    [("pages",
      Json.JArr
        [Json.JStr
           (Json.js "a~~```json~{~  'toString': 'vscode-remote://ssh-remote%2Bbox/srv/app',~  'scheme': 'vscode-remote',~  'authority': 'ssh-remote+box',~  'path': '/srv/app',~  'normalizedAuthority': 'box',~  'finalUriString': 'box/srv/app'~}~```")]);
     ("currentPage", Json.JNum 0 0)].

(** The first workspace folder is at [authority], [path]. *)
Definition opened_at (authority path : string) (w : World) : Prop :=
  exists uri rest,
    workspaceFolders w = Some (uri :: rest)
    /\ uri_authority uri = authority /\ uri_path uri = path.

(** A world whose only workspace folder is at [authority], [path]. *)
Definition world_at (authority path : string) : World :=
  initial (Some [{| uri_scheme := "vscode-remote"; uri_authority := authority;
                    uri_path := path; uri_toString := EmptyString |}])
          "/home/u" EmptyString ∅ ∅.

(** A computation maintains the invariant [P], whatever it returns or
    throws. *)
Definition preserves {A} (P : World -> Prop) (m : M A) : Prop :=
  forall w, P w -> P (snd (m w)).

(** A session: the view appears, the webview sends [init] with legacy
    notes, the vault directory is changed to [/vault] and the webview
    sends [init] again. *)
Definition example_session : list event :=
  [EvResolveView;
   EvMessage (MsgInit (Some example_notes));
   EvConfiguration true "/vault";
   EvMessage (MsgInit (Some example_notes))].

(** The provider just constructed, on an empty disk. *)
Definition example_start : World :=
  initial None "/home/u" EmptyString ∅ ∅.

Definition example_final : World :=
  default example_start (run example_session example_start).

(** What [init] does between the test for the vault file and
    [_startWatching]: load when the file is there, migrate otherwise. *)
Definition init_branch (value : option Json.value) (vaultFilePath : string)
    (filePresent : bool) : M unit :=
  if filePresent
  then
    try_catch
      (fileData ← fs_readFileSync vaultFilePath;
       set_lastSavedStateStr (Some fileData);;
       state ← JSON_parse fileData;
       postMessage (LoadState (Some state)))
      (fun _ => showErrorMessage parse_error_text)
  else
    set_lastSavedStateStr (Json.stringify value);;
    lastSaved ← gets (fun w => _lastSavedStateStr (this w));
    fs_writeFileSync vaultFilePath lastSaved;;
    postMessage (LoadState value).

(** [fs.existsSync (p)] as a value. *)
Definition exists_at (p : string) (w : World) : bool :=
  bool_decide (p ∈ dirs w) || bool_decide (is_Some (files w !! p)).

(** The provider has done nothing since the world [w0]: nothing posted
    or shown, no watcher, no timer, its fields and the directories as
    in [w0]. *)
Definition dormant (w0 w : World) : Prop :=
  outbox w = [] /\ watchers w = [] /\ timers w = [] /\ errors_shown w = []
  /\ this w = this w0 /\ dirs w = dirs w0.

(** Events that run the provider's own code, as opposed to what other
    processes do to the disk. *)
Definition internal (ev : event) : bool :=
  match ev with
  | EvExternalWrite _ _ | EvExternalRemove _ => false
  | _ => true
  end.

(** A computation writes at most one file, and then the text it leaves
    in [_lastSavedStateStr]. *)
Definition writes_cache {A} (m : M A) : Prop :=
  forall w,
    files (snd (m w)) = files w
    \/ exists p s,
         files (snd (m w)) = <[p := s]> (files w)
         /\ _lastSavedStateStr (this (snd (m w))) = Some s.

(** *** [_getNonce] *)

Definition possible : string :=
  "ABCDEFGHIJKLMNOPQRSTUVWXYZabcdefghijklmnopqrstuvwxyz0123456789".

(** [s.charAt (n)]: the empty string when [n] is out of range. *)
Fixpoint charAt (n : nat) (s : string) : string :=
  match s, n with
  | EmptyString, _ => EmptyString
  | String c _, O => String c EmptyString
  | String _ r, S k => charAt k r
  end.

(** The loop of [_getNonce].  [draw i] is the index that
    [Math.floor (Math.random () * possible.length)] yields in round
    [i]; the random source itself is not modelled. *)
Definition _getNonce (draw : nat -> nat) : string :=
  fold_left (fun text i => text +:+ charAt (draw i) possible) (seq 0 32) EmptyString.

(** Letters and digits. *)
Definition is_alnum (c : ascii) : bool :=
  let n := N_of_ascii c in
  (((48 <=? n) && (n <=? 57)) || ((65 <=? n) && (n <=? 90))
   || ((97 <=? n) && (n <=? 122)))%N.

Fixpoint all_alnum (s : string) : bool :=
  match s with
  | EmptyString => true
  | String c r => is_alnum c && all_alnum r
  end.

(** *** [updateStatusBar] *)

(** The [vscode.StatusBarItem] handed to the constructor: its text and
    whether it is shown. *)
Record StatusBarItem : Type := {
  sb_text : string;
  sb_visible : bool
}.

(** [updateStatusBar (content)] on the optional [_statusBar]; [content]
    is [None] when undefined. *)
Definition updateStatusBar (content : option string) (statusBar : option StatusBarItem)
  : option StatusBarItem :=
  match statusBar with
  | Some bar =>
      match content with
      | Some c =>
          if nonempty c
          then Some {| sb_text := c; sb_visible := true |}
          else Some {| sb_text := sb_text bar; sb_visible := false |}
      | None => Some {| sb_text := sb_text bar; sb_visible := false |}
      end
  | None => None
  end.

(** Runs the lexer through [s], provided no token is completed on the
    way. *)
Fixpoint lex_feed (st : Json.lstate) (s : string) : option Json.lstate :=
  match s with
  | EmptyString => Some st
  | String c r =>
      match Json.lex_step st c with
      | Some (st', []) => lex_feed st' r
      | _ => None
      end
  end.

(* ===================================================================== *)
(** ** Reasoning support *)
(* ===================================================================== *)

(** *** The built-ins on known values *)

Example md5_empty : Md5.md5_hex "" = "d41d8cd98f00b204e9800998ecf8427e"%string.
Proof. vm_compute. reflexivity. Qed.

Example md5_abc : Md5.md5_hex "abc" = "900150983cd24fb0d6963f7d28e17f72"%string.
Proof. vm_compute. reflexivity. Qed.

Example md5_two_blocks :
  Md5.md5_hex "12345678901234567890123456789012345678901234567890123456789012345678901234567890"
  = "57edf4a22be3c955ac49da2e2107b67a"%string.
Proof. vm_compute. reflexivity. Qed.

Example md5_global : Md5.md5_hex "global" = "9c70933aff6b2a6d08c687a6cbb6b765"%string.
Proof. vm_compute. reflexivity. Qed.

Example stringify_notes :
  Json.stringify (Some (Json.JObj [("pages", Json.JArr [Json.JStr "a"]);
                                   ("currentPage", Json.JNum 0 0)]))
  = Some (Json.js "{~  'pages': [~    'a'~  ],~  'currentPage': 0~}").
Proof. vm_compute. reflexivity. Qed.

Example stringify_numbers :
  map (fun '(m, e) => Json.number_to_string m e)
      [(0, 0); (12, 0); (-5, 2); (15, -1); (-5, -3); (125, -2)]%Z
  = ["0"; "12"; "-500"; "1.5"; "-0.005"; "1.25"]%string.
Proof. vm_compute. reflexivity. Qed.

Example parse_notes_compact :
  Json.parse (Json.js "{'pages':['a'],'currentPage':0}")
  = Some (Json.JObj [("pages", Json.JArr [Json.JStr "a"]);
                     ("currentPage", Json.JNum 0 0)]).
Proof. vm_compute. reflexivity. Qed.

Example parse_stringify_notes :
  Json.parse (Json.stringify_at EmptyString example_notes) = Some example_notes.
Proof. vm_compute. reflexivity. Qed.

Example parse_unicode_escape :
  Json.parse (Json.js "'\u0041\u00e9'")
  = Some (Json.JStr (String "A" (String "195" (String "169" EmptyString)))).
Proof. vm_compute. reflexivity. Qed.

Example parse_accepts :
  map (fun s => Json.parse (Json.js s))
      [" null "; "[]"; "{}"; "[1, 2.50, -3e2, 1E-2, 0]"; "'a\nA\/'";
       "{'a':{'b':[true,false]},'a':1}"; "[[],{}]"; "-0"]
  = [Some Json.JNull; Some (Json.JArr []); Some (Json.JObj []);
     Some (Json.JArr [Json.JNum 1 0; Json.JNum 25 (-1); Json.JNum (-3) 2;
                      Json.JNum 1 (-2); Json.JNum 0 0]);
     Some (Json.JStr (Json.js "a~A/"));
     Some (Json.JObj [("a", Json.JNum 1 0)]);
     Some (Json.JArr [Json.JArr []; Json.JObj []]);
     Some (Json.JNum 0 0)].
Proof. vm_compute. reflexivity. Qed.

Example parse_rejects :
  map (fun s => Json.parse (Json.js s))
      [""; "{"; "undefined"; "01"; "1."; ".5"; "-"; "1e"; "[1,]"; "{'a':1,}";
       "{'a'}"; "{a:1}"; "[1 2]"; "'a"; "'\x'"; "'\u12'"; "nul"; "true false";
       "[1]]"; "{'a':1"; "'a~b'"; "+1"; "[,1]"; "{,}"; "1 2"; "]"; "[}"]
  = repeat None 27.
Proof. vm_compute. reflexivity. Qed.

(** *** Paths *)

Lemma split_last_no_slash (s : string) :
  Path.has_slash s = false -> Path.split_last s = None.
Proof.
  induction s as [|c r IH]; simpl; [reflexivity|].
  intros H. apply orb_false_iff in H as [Hc Hr].
  rewrite (IH Hr), Hc. reflexivity.
Qed.

Lemma split_last_app (d f : string) :
  Path.has_slash f = false ->
  Path.split_last (d +:+ "/" +:+ f) = Some (d, f).
Proof.
  intros Hf. induction d as [|c r IH].
  - change (Path.split_last (String "/" f) = Some (EmptyString, f)).
    simpl. rewrite (split_last_no_slash f Hf). reflexivity.
  - change (Path.split_last (String c (r +:+ "/" +:+ f)) = Some (String c r, f)).
    simpl. rewrite IH. reflexivity.
Qed.

Lemma dirname_join (d f : string) :
  nonempty d = true -> Path.has_slash f = false ->
  Path.dirname (Path.join d f) = d.
Proof.
  intros Hd Hf. unfold Path.dirname, Path.join.
  destruct d as [|c r]; [discriminate|].
  rewrite split_last_app by assumption. reflexivity.
Qed.


Lemma has_slash_app (a b : string) :
  Path.has_slash (a +:+ b) = Path.has_slash a || Path.has_slash b.
Proof.
  induction a as [|c r IH]; [reflexivity|].
  change (Path.has_slash (String c (r +:+ b))
          = Path.has_slash (String c r) || Path.has_slash b).
  simpl. rewrite IH, orb_assoc. reflexivity.
Qed.

(** *** The digest is made of hexadecimal digits *)

Lemma md5_hex_digit_no_slash (n : Z) : Ascii.eqb (Md5.hex_digit n) "/" = false.
Proof.
  unfold Md5.hex_digit. generalize (Z.to_nat n). intros k.
  do 16 (destruct k as [|k]; [reflexivity|]).
  simpl. destruct k; reflexivity.
Qed.

Lemma has_slash_of_list (l : list ascii) :
  Forall (fun c => Ascii.eqb c "/" = false) l ->
  Path.has_slash (string_of_list_ascii l) = false.
Proof.
  induction 1 as [|c l Hc _ IH]; simpl; [reflexivity|].
  rewrite Hc, IH. reflexivity.
Qed.

Lemma md5_hex_no_slash (s : string) : Path.has_slash (Md5.md5_hex s) = false.
Proof.
  unfold Md5.md5_hex. destruct (Md5.digest _) as [[[a b] c] d].
  apply has_slash_of_list.
  apply Forall_concat, Forall_map, Forall_forall. intros x _.
  unfold Md5.hex_byte.
  repeat constructor; apply md5_hex_digit_no_slash.
Qed.

Lemma notes_file_no_slash (h : string) :
  Path.has_slash h = false -> Path.has_slash (notes_file h) = false.
Proof.
  intros H. unfold notes_file. rewrite !has_slash_app, H. reflexivity.
Qed.

(** *** What the two queries of the handlers return *)

Lemma getVaultDir_run (w : World) : _getVaultDir w = (Ret (vaultDir_of w), w).
Proof.
  unfold _getVaultDir, vaultDir_of. unfold_monad.
  destruct (nonempty (config_vaultPath (this w))); reflexivity.
Qed.

Lemma getWorkspaceHash_run (w : World) :
  _getWorkspaceHash w
  = (Ret (workspaceHash_of w), with_timers (fun l => l ++ scheduled w) w).
Proof.
  unfold _getWorkspaceHash, workspaceHash_of, uriString_of, scheduled, setTimeout.
  unfold_monad. destruct w as [p wf h fs ds ws n o e ts]; simpl.
  destruct wf as [[|uri rest]|]; simpl; unfold with_timers; simpl;
    rewrite ?app_nil_r; reflexivity.
Qed.

Lemma vaultDir_nonempty (w : World) : nonempty (vaultDir_of w) = true.
Proof.
  unfold vaultDir_of.
  destruct (nonempty (config_vaultPath (this w))) eqn:E; [exact E|].
  unfold Path.join. destruct (homedir w); reflexivity.
Qed.

Lemma dirname_vaultFilePath (w : World) :
  Path.dirname (vaultFilePath_of w) = vaultDir_of w.
Proof.
  apply dirname_join; [apply vaultDir_nonempty|].
  apply notes_file_no_slash, md5_hex_no_slash.
Qed.

(** *** The prologue shared by the [init] and [saveState] handlers *)

Lemma prologue_run {A} (k : string -> string -> M A) (w : World) :
  (workspaceHash ← _getWorkspaceHash;
   vaultDir ← _getVaultDir;
   dirPresent ← fs_existsSync vaultDir;
   (if negb dirPresent then fs_mkdirSync vaultDir else mret tt);;
   k workspaceHash vaultDir) w
  = k (workspaceHash_of w) (vaultDir_of w) (prepared w).
Proof.
  unfold mbind at 1. unfold M_bind, bind. rewrite getWorkspaceHash_run.
  unfold mbind at 1. unfold M_bind, bind. rewrite getVaultDir_run.
  unfold prepared, fs_existsSync, fs_mkdirSync. unfold_monad. cbv beta.
  change (vaultDir_of (with_timers (fun l => l ++ scheduled w) w)) with (vaultDir_of w).
  change (dirs (with_timers (fun l => l ++ scheduled w) w)) with (dirs w).
  change (files (with_timers (fun l => l ++ scheduled w) w)) with (files w).
  destruct (bool_decide (vaultDir_of w ∈ dirs w) || bool_decide (is_Some (files w !! vaultDir_of w)));
    reflexivity.
Qed.

Lemma prepared_this (w : World) : this (prepared w) = this w.
Proof. unfold prepared. destruct (_ || _); reflexivity. Qed.

Lemma prepared_files (w : World) : files (prepared w) = files w.
Proof. unfold prepared. destruct (_ || _); reflexivity. Qed.

Lemma prepared_outbox (w : World) : outbox (prepared w) = outbox w.
Proof. unfold prepared. destruct (_ || _); reflexivity. Qed.

Lemma prepared_errors (w : World) : errors_shown (prepared w) = errors_shown w.
Proof. unfold prepared. destruct (_ || _); reflexivity. Qed.

Lemma prepared_watchers (w : World) :
  watchers (prepared w) = watchers w /\ next_watcher (prepared w) = next_watcher w.
Proof. unfold prepared. destruct (_ || _); split; reflexivity. Qed.

Lemma prepared_timers (w : World) : timers (prepared w) = timers w ++ scheduled w.
Proof. unfold prepared. destruct (_ || _); reflexivity. Qed.



(** *** The watcher callback *)

Lemma fs_existsSync_file (w : World) (p data : string) :
  files w !! p = Some data -> fs_existsSync p w = (Ret true, w).
Proof.
  intros H. unfold fs_existsSync, gets. rewrite H.
  rewrite (bool_decide_eq_true_2 (is_Some (Some data))) by eauto.
  rewrite orb_true_r. reflexivity.
Qed.

Lemma watch_callback_same (w : World) (path : string) (filename : option string)
    (content : string) :
  files w !! path = Some content ->
  _lastSavedStateStr (this w) = Some content ->
  watch_callback path filename w = (Ret tt, w).
Proof.
  intros Hf Hc. unfold watch_callback.
  case_bool_decide; [|reflexivity].
  unfold mbind at 1. unfold M_bind, bind. rewrite (fs_existsSync_file w path content Hf).
  unfold_monad. unfold fs_readFileSync. cbv beta. rewrite Hf. cbv beta iota. rewrite Hc.
  rewrite bool_decide_eq_true_2 by reflexivity. reflexivity.
Qed.


(* ===================================================================== *)
(** ** Echo suppression *)
(* ===================================================================== *)



(** A watcher event that finds other content than the cached string:
    the cache is overwritten first, then the content is parsed. *)
Lemma watch_callback_changed (w : World) (path content : string) :
  files w !! path = Some content ->
  _lastSavedStateStr (this w) <> Some content ->
  watch_callback path (Some (Path.basename path)) w
  = match Json.parse content with
    | Some v => postMessage (LoadState (Some v)) (cached (Some content) w)
    | None => (Ret tt, cached (Some content) w)
    end.
Proof.
  intros Hf Hc. unfold watch_callback.
  rewrite bool_decide_eq_true_2 by reflexivity.
  unfold mbind at 1. unfold M_bind, bind. rewrite (fs_existsSync_file w path content Hf).
  unfold_monad. unfold fs_readFileSync, set_lastSavedStateStr, JSON_parse.
  unfold_monad. cbv beta. rewrite Hf. cbv beta iota.
  rewrite bool_decide_eq_false_2 by congruence. cbv beta iota.
  destruct (Json.parse content) as [v|]; [|reflexivity].
  unfold postMessage. cbv beta iota delta [negb].
  destruct (_view (this (cached (Some content) w))); reflexivity.
Qed.

Lemma cached_same (w : World) (s : option string) :
  _lastSavedStateStr (this w) = s -> cached s w = w.
Proof.
  intros <-. destruct w as [[vw fw ls cv] wf h fs ds ws n o e ts]. reflexivity.
Qed.

(* ===================================================================== *)
(** ** Invalid JSON seen by the watcher *)
(* ===================================================================== *)

(** C3 (as amended).  A watcher event on the vault file whose content is
    not valid JSON returns normally, shows no error, posts nothing and
    touches no file; [_lastSavedStateStr], however, now holds that raw
    content, because the callback stores the string before parsing it. *)
Theorem watch_invalid_json (w : World) (path content : string) :
  files w !! path = Some content ->
  Json.parse content = None ->
  exists w',
    watch_callback path (Some (Path.basename path)) w = (Ret tt, w')
    /\ outbox w' = outbox w
    /\ errors_shown w' = errors_shown w
    /\ files w' = files w
    /\ _lastSavedStateStr (this w') = Some content.
Proof.
  intros Hf Hp. exists (cached (Some content) w). split; [|repeat split].
  destruct (decide (_lastSavedStateStr (this w) = Some content)) as [Heq|Hne].
  - rewrite (watch_callback_same w path _ content Hf Heq).
    rewrite (cached_same w _ Heq). reflexivity.
  - rewrite (watch_callback_changed w path content Hf Hne), Hp. reflexivity.
Qed.

Lemma watch_invalid_json_witness :
  let w := example_world (Some "{}"%string) (Some "{"%string) in
  exists w',
    watch_callback example_path (Some (Path.basename example_path)) w = (Ret tt, w')
    /\ outbox w' = outbox w
    /\ errors_shown w' = errors_shown w
    /\ files w' = files w
    /\ _lastSavedStateStr (this w') = Some "{"%string.
Proof.
  apply (watch_invalid_json (example_world (Some "{}"%string) (Some "{"%string))
           example_path "{").
  - vm_compute. reflexivity.
  - vm_compute. reflexivity.
Defined.

(** C3 as the specification states it fails: with [{}] cached and [{]
    on disk, the event replaces the cache by [{]. *)
Lemma watch_invalid_json_overwrites_cache :
  let w := example_world (Some "{}"%string) (Some "{"%string) in
  Json.parse "{" = None
  /\ files w !! example_path = Some "{"%string
  /\ _lastSavedStateStr (this (snd (dispatch (EvWatch 0 (Some (Path.basename example_path))) w)))
     <> _lastSavedStateStr (this w).
Proof.
  intros w. split; [|split].
  - vm_compute. reflexivity.
  - vm_compute. reflexivity.
  - vm_compute. discriminate.
Qed.


(** *** Frame rules: what a computation leaves alone *)

Section Keeps.
Context {X : Type} (f : World -> X).

Lemma keeps_ret {A} (a : A) : keeps f (mret a).
Proof. intros w. reflexivity. Qed.

Lemma keeps_throw {A} (e : exn) : keeps f (@throw A e).
Proof. intros w. reflexivity. Qed.

Lemma keeps_stuck {A} : keeps f (@stuck A).
Proof. intros w. reflexivity. Qed.

Lemma keeps_gets {A} (g : World -> A) : keeps f (gets g).
Proof. intros w. reflexivity. Qed.

Lemma keeps_modify (g : World -> World) :
  (forall w, f (g w) = f w) -> keeps f (modify g).
Proof. intros H w. apply H. Qed.

Lemma keeps_bind {A B} (m : M A) (k : A -> M B) :
  keeps f m -> (forall a, keeps f (k a)) -> keeps f (m ≫= k).
Proof.
  intros Hm Hk w. unfold mbind, M_bind, bind.
  specialize (Hm w). destruct (m w) as [[a| e |] w']; simpl in *.
  - rewrite (Hk a w'). exact Hm.
  - exact Hm.
  - exact Hm.
Qed.

Lemma keeps_try_catch {A} (m : M A) (h : exn -> M A) :
  keeps f m -> (forall e, keeps f (h e)) -> keeps f (try_catch m h).
Proof.
  intros Hm Hh w. unfold try_catch.
  specialize (Hm w). destruct (m w) as [[a| e |] w']; simpl in *.
  - exact Hm.
  - rewrite (Hh e w'). exact Hm.
  - exact Hm.
Qed.

Lemma keeps_existsSync (p : string) : keeps f (fs_existsSync p).
Proof. apply keeps_gets. Qed.

Lemma keeps_readFileSync (p : string) : keeps f (fs_readFileSync p).
Proof. intros w. unfold fs_readFileSync. destruct (files w !! p); reflexivity. Qed.

Lemma keeps_JSON_parse (s : string) : keeps f (JSON_parse s).
Proof. intros w. unfold JSON_parse. destruct (Json.parse s); reflexivity. Qed.

Lemma keeps_getVaultDir : keeps f _getVaultDir.
Proof. intros w. rewrite getVaultDir_run. reflexivity. Qed.
End Keeps.

(** Breaks a [keeps] goal along the structure of the computation; what
    is left are the state changes themselves. *)
Ltac keeps_structure :=
  repeat first
    [ apply keeps_ret | apply keeps_throw | apply keeps_stuck | apply keeps_gets
    | apply keeps_existsSync | apply keeps_readFileSync | apply keeps_JSON_parse
    | apply keeps_getVaultDir
    | apply keeps_bind | apply keeps_try_catch
    | match goal with
      | |- forall _, _ => intro
      | |- keeps _ (match ?x with _ => _ end) => destruct x
      | |- keeps _ (if ?b then _ else _) => destruct b
      end ].

(** [_startWatching] returns normally and touches nothing but the
    watcher handles. *)
Lemma startWatching_returns (p : string) (w : World) :
  fst (_startWatching p w) = Ret tt.
Proof.
  unfold _startWatching. unfold_monad. unfold_platform. unfold_monad. cbv beta.
  destruct (_fileWatcher (this w)); cbv beta iota;
    match goal with |- context [bool_decide ?P] => destruct (bool_decide P) end;
    reflexivity.
Qed.

Lemma keeps_startWatching {X} (f : World -> X) (p : string) :
  (forall g n w, f (with_watchers g n w) = f w) ->
  (forall h w, f (watching h w) = f w) ->
  keeps f (_startWatching p).
Proof.
  intros Hw Hh. unfold _startWatching.
  keeps_structure;
    try (unfold FSWatcher_close, set_fileWatcher; apply keeps_modify; intros; auto).
  unfold fs_watch. destruct (bool_decide _); simpl; auto.
Qed.

Lemma keeps_postMessage {X} (f : World -> X) (msg : posted) :
  (forall g w, f (with_outbox g w) = f w) -> keeps f (postMessage msg).
Proof. intros H w. unfold postMessage. destruct (_view (this w)); simpl; auto. Qed.

Lemma startWatching_run (p : string) (w : World) :
  exists w', _startWatching p w = (Ret tt, w')
    /\ files w' = files w /\ outbox w' = outbox w
    /\ errors_shown w' = errors_shown w
    /\ _lastSavedStateStr (this w') = _lastSavedStateStr (this w)
    /\ timers w' = timers w.
Proof.
  exists (snd (_startWatching p w)). split.
  - rewrite <- (startWatching_returns p w). destruct (_startWatching p w); reflexivity.
  - repeat split.
    + apply (keeps_startWatching files); reflexivity.
    + apply (keeps_startWatching outbox); reflexivity.
    + apply (keeps_startWatching errors_shown); reflexivity.
    + apply (keeps_startWatching (fun w => _lastSavedStateStr (this w))); reflexivity.
    + apply (keeps_startWatching timers); reflexivity.
Qed.

(** *** The [init] handler *)

Lemma string_length_append (a b : string) :
  String.length (a +:+ b) = (String.length a + String.length b)%nat.
Proof.
  induction a as [|c r IH]; [reflexivity|].
  change (S (String.length (r +:+ b)) = S (String.length r + String.length b)).
  rewrite IH. reflexivity.
Qed.

Lemma vaultFilePath_not_vaultDir (w : World) : vaultFilePath_of w <> vaultDir_of w.
Proof.
  unfold vaultFilePath_of, Path.join. pose proof (vaultDir_nonempty w) as Hn.
  destruct (vaultDir_of w) as [|c r] eqn:E; [discriminate|].
  intros Heq. apply (f_equal String.length) in Heq.
  rewrite !string_length_append in Heq. simpl in Heq. lia.
Qed.

Lemma init_unfold (value : option Json.value) (w : World) :
  onDidReceiveMessage (MsgInit value) w
  = ((filePresent ← fs_existsSync (vaultFilePath_of w);
      (if (filePresent : bool)
       then
         try_catch
           (fileData ← fs_readFileSync (vaultFilePath_of w);
            set_lastSavedStateStr (Some fileData);;
            state ← JSON_parse fileData;
            postMessage (LoadState (Some state)))
           (fun _ => showErrorMessage parse_error_text)
       else
         set_lastSavedStateStr (Json.stringify value);;
         lastSaved ← gets (fun w => _lastSavedStateStr (this w));
         fs_writeFileSync (vaultFilePath_of w) lastSaved;;
         postMessage (LoadState value));;
      _startWatching (vaultFilePath_of w)) (prepared w)).
Proof.
  unfold onDidReceiveMessage.
  rewrite (prologue_run (fun workspaceHash vaultDir =>
    let vaultFilePath := Path.join vaultDir (notes_file workspaceHash) in
    filePresent ← fs_existsSync vaultFilePath;
    (if (filePresent : bool)
     then
       try_catch
         (fileData ← fs_readFileSync vaultFilePath;
          set_lastSavedStateStr (Some fileData);;
          state ← JSON_parse fileData;
          postMessage (LoadState (Some state)))
         (fun _ => showErrorMessage parse_error_text)
     else
       set_lastSavedStateStr (Json.stringify value);;
       lastSaved ← gets (fun w => _lastSavedStateStr (this w));
       fs_writeFileSync vaultFilePath lastSaved;;
       postMessage (LoadState value));;
    _startWatching vaultFilePath)).
  reflexivity.
Qed.

(** The vault file is still absent once the directory has been made. *)
Lemma prepared_file_absent (w : World) :
  files w !! vaultFilePath_of w = None ->
  vaultFilePath_of w ∉ dirs w ->
  fs_existsSync (vaultFilePath_of w) (prepared w) = (Ret false, prepared w).
Proof.
  intros Hf Hd. unfold fs_existsSync, gets.
  rewrite prepared_files, Hf.
  rewrite (bool_decide_eq_false_2 (is_Some None)) by (intros [x Hx]; discriminate).
  rewrite bool_decide_eq_false_2; [reflexivity|].
  unfold prepared. pose proof (vaultFilePath_not_vaultDir w) as Hne.
  destruct (_ || _); simpl; [exact Hd|].
  rewrite elem_of_union, elem_of_singleton. intros [Heq|Hin]; contradiction.
Qed.

Lemma prepared_file_present (w : World) (content : string) :
  files w !! vaultFilePath_of w = Some content ->
  fs_existsSync (vaultFilePath_of w) (prepared w) = (Ret true, prepared w).
Proof.
  intros Hf. apply (fs_existsSync_file _ _ content). rewrite prepared_files. exact Hf.
Qed.


(* ===================================================================== *)
(** ** Migration *)
(* ===================================================================== *)



(** *** The delayed callback on a cache that does not parse *)

Lemma timer_callback_unparsable (t : Timer) (w : World) (s : string) :
  _lastSavedStateStr (this w) = Some s ->
  Json.parse s = None ->
  timer_callback t w = (Ret tt, w).
Proof.
  intros Hc Hp. unfold timer_callback, try_catch.
  unfold mbind at 1. unfold M_bind, bind, gets. rewrite Hc.
  destruct (nonempty s); [|reflexivity].
  unfold mbind at 1. unfold M_bind, bind. rewrite getVaultDir_run.
  unfold JSON_parse. rewrite Hp. reflexivity.
Qed.

(* ===================================================================== *)
(** ** A vault file that does not parse *)
(* ===================================================================== *)

(** C7. When [init] finds a vault file that is not valid JSON, the error
    message is shown once, nothing is posted to the webview and no file
    is written; the callback that this [init] (or an earlier call) left
    with [setTimeout] does nothing either when it fires next. *)
Theorem init_unparsable_file (w : World) (value : option Json.value) (content : string) :
  files w !! vaultFilePath_of w = Some content ->
  Json.parse content = None ->
  exists w1,
    onDidReceiveMessage (MsgInit value) w = (Ret tt, w1)
    /\ errors_shown w1 = errors_shown w ++ [parse_error_text]
    /\ outbox w1 = outbox w
    /\ files w1 = files w
    /\ (forall t, timer_callback t w1 = (Ret tt, w1)).
Proof.
  intros Hf Hp. rewrite init_unfold.
  unfold mbind at 1. unfold M_bind, bind.
  rewrite (prepared_file_present w content Hf).
  unfold_monad. unfold fs_readFileSync, set_lastSavedStateStr, JSON_parse, showErrorMessage.
  unfold_monad. cbv beta. rewrite prepared_files, Hf. cbv beta iota.
  rewrite Hp. cbv beta iota.
  match goal with
  | |- context [_startWatching ?p ?w0] =>
      destruct (startWatching_run p w0) as (w1 & Hrun & Hfs & Ho & He & Hc & Ht);
      rewrite Hrun
  end.
  exists w1. simpl in Hfs, Ho, He, Hc.
  rewrite prepared_files in Hfs. rewrite prepared_outbox in Ho.
  rewrite prepared_errors in He.
  repeat split; try assumption.
  intros t. apply (timer_callback_unparsable t w1 content Hc Hp).
Qed.

Lemma init_unparsable_file_witness :
  let w := example_world (Some EmptyString) (Some "{ pages"%string) in
  exists w1,
    onDidReceiveMessage (MsgInit (Some example_notes)) w = (Ret tt, w1)
    /\ errors_shown w1 = errors_shown w ++ [parse_error_text]
    /\ outbox w1 = outbox w
    /\ files w1 = files w
    /\ (forall t, timer_callback t w1 = (Ret tt, w1)).
Proof.
  apply (init_unparsable_file (example_world (Some EmptyString) (Some "{ pages"%string))
           (Some example_notes) "{ pages").
  - vm_compute. reflexivity.
  - vm_compute. reflexivity.
Defined.

(* ===================================================================== *)
(** ** [init] without a legacy state *)
(* ===================================================================== *)

(** C6 (what the code does).  With no vault file and [data.value]
    undefined, [JSON.stringify] yields [undefined], which becomes the
    cache; [fs.writeFileSync] rejects it, and the exception leaves the
    handler: no file is created, nothing is posted, and
    [_startWatching] is not reached. *)
Theorem init_without_legacy_state (w : World) :
  files w !! vaultFilePath_of w = None ->
  vaultFilePath_of w ∉ dirs w ->
  exists w1,
    onDidReceiveMessage (MsgInit None) w = (Throw TypeError, w1)
    /\ files w1 = files w
    /\ outbox w1 = outbox w
    /\ watch_state w1 = watch_state w
    /\ _lastSavedStateStr (this w1) = None.
Proof.
  intros Hfile Hnodir. exists (cached None (prepared w)). split; [|repeat split].
  - rewrite init_unfold.
    unfold mbind at 1. unfold M_bind, bind.
    rewrite (prepared_file_absent w Hfile Hnodir). reflexivity.
  - simpl. apply prepared_files.
  - simpl. apply prepared_outbox.
  - unfold watch_state. simpl. destruct (prepared_watchers w) as [-> ->].
    rewrite prepared_this. reflexivity.
Qed.

Lemma init_without_legacy_state_witness :
  let w := example_world (Some EmptyString) None in
  exists w1,
    onDidReceiveMessage (MsgInit None) w = (Throw TypeError, w1)
    /\ files w1 = files w
    /\ outbox w1 = outbox w
    /\ watch_state w1 = watch_state w
    /\ _lastSavedStateStr (this w1) = None.
Proof.
  apply (init_without_legacy_state (example_world (Some EmptyString) None)).
  - vm_compute. reflexivity.
  - apply (bool_decide_unpack _). vm_compute. exact I.
Defined.

(* ===================================================================== *)
(** ** External changes *)
(* ===================================================================== *)

(** C10. The comparison is on raw strings.  When the vault file holds
    valid JSON that differs, as a string, from [_lastSavedStateStr], the
    watcher posts [loadState] with the parsed value and remembers the
    new string; nothing is asked about the value the old string parses
    to, so a rewrite that only changes the formatting is reported too. *)
Theorem watch_external_change (w : World) (path content : string) (v : Json.value) :
  _view (this w) = true ->
  files w !! path = Some content ->
  Json.parse content = Some v ->
  _lastSavedStateStr (this w) <> Some content ->
  exists w',
    watch_callback path (Some (Path.basename path)) w = (Ret tt, w')
    /\ outbox w' = outbox w ++ [LoadState (Some v)]
    /\ _lastSavedStateStr (this w') = Some content.
Proof.
  intros Hview Hf Hp Hne.
  rewrite (watch_callback_changed w path content Hf Hne), Hp.
  unfold postMessage.
  change (_view (this (cached (Some content) w))) with (_view (this w)).
  rewrite Hview. eexists. split; [reflexivity|]. split; reflexivity.
Qed.

(** The cached string is the pretty-printed [example_notes]; another
    process rewrites the file in compact form, which parses to the very
    same value. *)
Lemma watch_external_change_witness :
  let compact := Json.js "{'pages':['a'],'currentPage':0}" in
  let w := example_world (Json.stringify (Some example_notes)) (Some compact) in
  (_lastSavedStateStr (this w) ≫= Json.parse) = Some example_notes
  /\ Json.parse compact = Some example_notes
  /\ exists w',
       watch_callback example_path (Some (Path.basename example_path)) w = (Ret tt, w')
       /\ outbox w' = outbox w ++ [LoadState (Some example_notes)]
       /\ _lastSavedStateStr (this w') = Some compact.
Proof.
  intros compact w. split; [vm_compute; reflexivity|].
  split; [vm_compute; reflexivity|].
  apply (watch_external_change w example_path compact example_notes).
  - reflexivity.
  - vm_compute. reflexivity.
  - vm_compute. reflexivity.
  - vm_compute. discriminate.
Defined.

(* ===================================================================== *)
(** ** The side effect of [_getWorkspaceHash] *)
(* ===================================================================== *)

(** C2 (what the code does).  In a window with a workspace folder, a
    call of [_getWorkspaceHash] changes nothing at once but leaves a
    callback with [setTimeout]; when that callback runs, it appends a
    diagnostic block to the current page, rewrites the vault file and
    the cache, and posts the modified state to the webview. *)
Theorem getWorkspaceHash_deferred_write :
  let w := example_remote_world in
  let w1 := snd (_getWorkspaceHash w) in
  let w2 := snd (dispatch EvTimer w1) in
  fst (_getWorkspaceHash w) = Ret "bee990fa36eb65c40643c347c08e4ec9"%string
  /\ files w1 = files w /\ this w1 = this w /\ outbox w1 = outbox w
  /\ timers w1 = [{| t_uri := example_uri; t_normalizedAuthority := "box";
                     t_uriString := "box/srv/app" |}]
  /\ files w !! example_remote_path = Json.stringify (Some example_notes)
  /\ files w2 !! example_remote_path = Json.stringify (Some example_notes_patched)
  /\ _lastSavedStateStr (this w2) = Json.stringify (Some example_notes_patched)
  /\ outbox w2 = [LoadState (Some example_notes_patched)]
  /\ example_notes_patched <> example_notes.
Proof.
  repeat split; try (vm_compute; reflexivity).
  vm_compute. discriminate.
Qed.

(* ===================================================================== *)
(** ** The routing prefix of the authority *)
(* ===================================================================== *)

Lemma indexOf_lower_bound (c : ascii) (s : string) : (-1 <= indexOf c s)%Z.
Proof.
  induction s as [|a r IH]; simpl; [lia|].
  destruct (Ascii.eqb a c); [lia|].
  destruct (indexOf c r =? -1)%Z; lia.
Qed.

Lemma indexOf_first (c : ascii) (x y : string) :
  indexOf c x = (-1)%Z ->
  indexOf c (x +:+ String c y) = Z.of_nat (String.length x).
Proof.
  induction x as [|a r IH]; intros Hx.
  - change (indexOf c (String c y) = 0%Z). simpl. rewrite Ascii.eqb_refl. reflexivity.
  - change (indexOf c (String a (r +:+ String c y)) = Z.of_nat (S (String.length r))).
    simpl in Hx |- *. destruct (Ascii.eqb a c); [discriminate|].
    destruct (indexOf c r =? -1)%Z eqn:E.
    + apply Z.eqb_eq in E. rewrite (IH E).
      destruct (Z.of_nat (String.length r) =? -1)%Z eqn:E'; [apply Z.eqb_eq in E'|]; lia.
    + pose proof (indexOf_lower_bound c r). apply Z.eqb_neq in E. lia.
Qed.

Lemma substring_from_app (c : ascii) (x y : string) :
  substring_from (S (String.length x)) (x +:+ String c y) = y.
Proof.
  induction x as [|a r IH]; [reflexivity|].
  change (substring_from (S (String.length r)) (r +:+ String c y) = y). exact IH.
Qed.

(** Everything up to the first [+] is dropped. *)
Lemma normalizedAuthority_prefix (x y : string) :
  indexOf "+" x = (-1)%Z ->
  normalizedAuthority (x +:+ "+" +:+ y) = y.
Proof.
  intros Hx. unfold normalizedAuthority.
  change (x +:+ "+" +:+ y) with (x +:+ String "+" y).
  rewrite (indexOf_first "+" x y Hx).
  destruct (Z.of_nat (String.length x) =? -1)%Z eqn:E; [apply Z.eqb_eq in E; lia|].
  simpl negb. cbv iota.
  replace (Z.to_nat (Z.of_nat (String.length x) + 1)) with (S (String.length x)) by lia.
  apply substring_from_app.
Qed.

(** C4 (as amended).  Two windows whose first workspace folders have the
    same path and authorities [x+y] and [z+y], with no [+] inside the
    tags [x] and [z], get the same workspace hash, the digest of [y]
    followed by the path. *)
Theorem workspace_hash_ignores_tag (w1 w2 : World) (x z y p : string) :
  indexOf "+" x = (-1)%Z ->
  indexOf "+" z = (-1)%Z ->
  opened_at (x +:+ "+" +:+ y) p w1 ->
  opened_at (z +:+ "+" +:+ y) p w2 ->
  fst (_getWorkspaceHash w1) = fst (_getWorkspaceHash w2)
  /\ fst (_getWorkspaceHash w1) = Ret (Md5.md5_hex (y +:+ p)).
Proof.
  intros Hx Hz (u1 & r1 & Hw1 & Ha1 & Hp1) (u2 & r2 & Hw2 & Ha2 & Hp2).
  rewrite !getWorkspaceHash_run. simpl.
  unfold workspaceHash_of, uriString_of.
  rewrite Hw1, Hw2, Ha1, Ha2, Hp1, Hp2.
  rewrite (normalizedAuthority_prefix x y Hx), (normalizedAuthority_prefix z y Hz).
  split; reflexivity.
Qed.

Lemma workspace_hash_ignores_tag_witness :
  fst (_getWorkspaceHash (world_at "ssh-remote+box" "/srv/app"))
  = fst (_getWorkspaceHash (world_at "wsl+box" "/srv/app"))
  /\ fst (_getWorkspaceHash (world_at "ssh-remote+box" "/srv/app"))
     = Ret (Md5.md5_hex ("box" +:+ "/srv/app")).
Proof.
  apply (workspace_hash_ignores_tag
           (world_at "ssh-remote+box" "/srv/app") (world_at "wsl+box" "/srv/app")
           "ssh-remote" "wsl" "box" "/srv/app").
  - vm_compute. reflexivity.
  - vm_compute. reflexivity.
  - eexists _, _. repeat split; reflexivity.
  - eexists _, _. repeat split; reflexivity.
Defined.

(** C4 as the specification states it fails when a tag contains [+]:
    with the authorities [a+b+y] and [c+y] (tags [a+b] and [c], the same
    [y]) the code keeps [b+y] and [y], and the two digests differ. *)
Lemma workspace_hash_depends_on_tag :
  normalizedAuthority "a+b+y" = "b+y"%string
  /\ normalizedAuthority "c+y" = "y"%string
  /\ fst (_getWorkspaceHash (world_at "a+b+y" "/p"))
     = Ret "d79d0530f46f1a82e9db9b33c49accb4"%string
  /\ fst (_getWorkspaceHash (world_at "c+y" "/p"))
     = Ret "385b85405dfe372e115c4290a307c087"%string
  /\ fst (_getWorkspaceHash (world_at "a+b+y" "/p"))
     <> fst (_getWorkspaceHash (world_at "c+y" "/p")).
Proof.
  repeat split; try (vm_compute; reflexivity).
  vm_compute. discriminate.
Qed.

(* ===================================================================== *)
(** ** One watcher at a time *)
(* ===================================================================== *)

Lemma single_watcher_ext (w w' : World) :
  watch_state w' = watch_state w -> single_watcher w -> single_watcher w'.
Proof.
  unfold watch_state, single_watcher. intros H. injection H as Hws Hn Hfw.
  rewrite Hws, Hn, Hfw. auto.
Qed.

Lemma keeps_single_watcher {A} (m : M A) (w : World) :
  keeps watch_state m -> single_watcher w -> single_watcher (snd (m w)).
Proof. intros Hk. apply single_watcher_ext, Hk. Qed.

(** After [_startWatching] the only open handle is the fresh one, if
    [fs.watch] succeeded, and none otherwise. *)
Lemma startWatching_watchers (p : string) (w : World) :
  single_watcher w ->
  watch_state (snd (_startWatching p w))
  = if bool_decide (Path.dirname p ∈ dirs w)
    then ([{| w_id := next_watcher w; w_vaultFilePath := p |}],
          S (next_watcher w), Some (next_watcher w))
    else ([], next_watcher w, None).
Proof.
  intros [Hone Hfresh]. unfold _startWatching.
  unfold_monad. unfold_platform. unfold_monad. cbv beta.
  destruct (_fileWatcher (this w)) as [h|] eqn:Efw; cbv beta iota; simpl dirs.
  - destruct Hone as [p0 Hws].
    destruct (bool_decide (Path.dirname p ∈ dirs w)); cbv beta iota;
      unfold watch_state; simpl; rewrite Hws;
      (rewrite filter_cons_False by (simpl; intros Hn; apply Hn; reflexivity));
      reflexivity.
  - destruct (bool_decide (Path.dirname p ∈ dirs w)); cbv beta iota;
      unfold watch_state; simpl; rewrite ?Hone, ?Efw; reflexivity.
Qed.

Lemma startWatching_single (p : string) (w : World) :
  single_watcher w -> single_watcher (snd (_startWatching p w)).
Proof.
  intros Hs. pose proof (startWatching_watchers p w Hs) as H.
  unfold watch_state in H. unfold single_watcher.
  destruct (bool_decide (Path.dirname p ∈ dirs w)); injection H as -> -> ->.
  - split; [eexists; reflexivity|]. repeat constructor.
  - split; [reflexivity|constructor].
Qed.

Lemma preserves_bind {A B} (P : World -> Prop) (m : M A) (k : A -> M B) :
  preserves P m -> (forall a, preserves P (k a)) -> preserves P (m ≫= k).
Proof.
  intros Hm Hk w Hw. unfold mbind, M_bind, bind.
  specialize (Hm w Hw). destruct (m w) as [[a| e |] w']; simpl in *.
  - apply (Hk a w' Hm).
  - exact Hm.
  - exact Hm.
Qed.

Lemma preserves_keeps {A} (m : M A) :
  keeps watch_state m -> preserves single_watcher m.
Proof. intros Hk w. apply keeps_single_watcher, Hk. Qed.

(** Closes the leaves [keeps_structure] stops at: a platform call is
    unfolded and evaluated on every branch. *)
Ltac keeps_leaf :=
  try intro;
  unfold_platform; unfold_monad; unfold watch_state; simpl;
  repeat match goal with
         | |- context [match ?x with _ => _ end] => destruct x; simpl
         | |- context [if ?b then _ else _] => destruct b; simpl
         end;
  reflexivity.

Lemma keeps_watch_state_getWorkspaceHash : keeps watch_state _getWorkspaceHash.
Proof. intros w. rewrite getWorkspaceHash_run. reflexivity. Qed.

Lemma keeps_watch_state_watch_callback (p : string) (filename : option string) :
  keeps watch_state (watch_callback p filename).
Proof. unfold watch_callback. keeps_structure; keeps_leaf. Qed.

Lemma keeps_watch_state_timer_callback (t : Timer) :
  keeps watch_state (timer_callback t).
Proof. unfold timer_callback. keeps_structure; keeps_leaf. Qed.

Lemma keeps_watch_state_saveState (value : option Json.value) :
  keeps watch_state (onDidReceiveMessage (MsgSaveState value)).
Proof.
  unfold onDidReceiveMessage.
  apply keeps_bind; [apply keeps_watch_state_getWorkspaceHash|intros].
  keeps_structure; keeps_leaf.
Qed.

Lemma init_single_watcher (value : option Json.value) :
  preserves single_watcher (onDidReceiveMessage (MsgInit value)).
Proof.
  unfold onDidReceiveMessage.
  apply preserves_bind; [apply preserves_keeps, keeps_watch_state_getWorkspaceHash|intros].
  repeat lazymatch goal with
         | |- preserves _ (_startWatching _) => fail
         | |- preserves _ (_ ≫= _) =>
             apply preserves_bind;
             [apply preserves_keeps; keeps_structure; keeps_leaf|intros]
         | |- preserves _ (let _ := _ in _) => cbv zeta
         end.
  intros w. apply startWatching_single.
Qed.

Lemma dispatch_single_watcher (ev : event) : preserves single_watcher (dispatch ev).
Proof.
  destruct ev as [|data|h filename| |result|affects vaultPath|p data|p]; unfold dispatch.
  - apply preserves_keeps. unfold resolveWebviewView. keeps_structure; keeps_leaf.
  - apply preserves_bind; [apply preserves_keeps, keeps_gets|intros resolved].
    destruct resolved; [|apply preserves_keeps, keeps_ret].
    destruct data as [s|s|value|value|s];
      try (apply preserves_keeps, keeps_ret).
    + apply init_single_watcher.
    + apply preserves_keeps, keeps_watch_state_saveState.
  - apply preserves_keeps.
    apply keeps_bind; [apply keeps_gets|intros ws].
    destruct (List.find _ ws);
      [apply keeps_watch_state_watch_callback|apply keeps_ret].
  - apply preserves_keeps.
    apply keeps_bind; [apply keeps_gets|intros ts].
    destruct ts as [|t rest]; [apply keeps_ret|].
    apply keeps_bind; [apply keeps_modify; reflexivity|intros].
    apply keeps_watch_state_timer_callback.
  - apply preserves_keeps.
    apply keeps_bind; [apply keeps_gets|intros ts].
    destruct ts as [|t rest]; [apply keeps_ret|].
    apply keeps_bind; [apply keeps_modify; reflexivity|intros].
    unfold timer_callback_outside. keeps_structure; keeps_leaf.
  - apply preserves_keeps. unfold onDidChangeConfiguration. keeps_structure; keeps_leaf.
  - apply preserves_keeps, keeps_modify. reflexivity.
  - apply preserves_keeps, keeps_modify. reflexivity.
Qed.

Lemma run_single_watcher (evs : list event) (w w' : World) :
  single_watcher w -> run evs w = Some w' -> single_watcher w'.
Proof.
  revert w. induction evs as [|ev rest IH]; intros w Hw Hrun; simpl in Hrun.
  - injection Hrun as <-. exact Hw.
  - pose proof (dispatch_single_watcher ev w Hw) as Hstep.
    destruct (dispatch ev w) as [[[]| e |] w1]; simpl in Hstep;
      [apply (IH w1 Hstep Hrun) | apply (IH w1 Hstep Hrun) | discriminate].
Qed.

(** C8. In every state the event loop can reach from a freshly
    constructed provider (by messages, watcher events, timer expiries
    inside or outside the modelled fragment, configuration changes and
    the file operations of other processes) there is at most one open
    watcher handle, the one [_fileWatcher] refers to; and
    [_startWatching] leaves none of the handles that were open before
    it. *)
Theorem at_most_one_watcher (folders : option (list Uri)) (home vaultPath : string)
    (fs : gmap string string) (ds : gset string) (evs : list event) (w : World) :
  run evs (initial folders home vaultPath fs ds) = Some w ->
  (length (watchers w) <= 1)%nat
  /\ single_watcher w
  /\ (forall path x, x ∈ watchers w -> x ∉ watchers (snd (_startWatching path w))).
Proof.
  intros Hrun.
  assert (Hs : single_watcher w).
  { apply (run_single_watcher evs (initial folders home vaultPath fs ds) w); [|exact Hrun].
    split; [reflexivity|constructor]. }
  split; [|split; [exact Hs|]].
  - destruct Hs as [Hone _]. destruct (_fileWatcher (this w)).
    + destruct Hone as [p ->]. simpl. lia.
    + rewrite Hone. simpl. lia.
  - intros path x Hx.
    pose proof (startWatching_watchers path w Hs) as Hw. unfold watch_state in Hw.
    destruct Hs as [_ Hfresh].
    rewrite Forall_forall in Hfresh. specialize (Hfresh x Hx).
    destruct (bool_decide (Path.dirname path ∈ dirs w)); injection Hw as -> _ _.
    + intros Hin. apply list_elem_of_singleton in Hin. subst x. simpl in Hfresh. lia.
    + apply not_elem_of_nil.
Qed.

Lemma at_most_one_watcher_witness :
  (length (watchers example_final) <= 1)%nat
  /\ single_watcher example_final
  /\ (forall path x,
        x ∈ watchers example_final ->
        x ∉ watchers (snd (_startWatching path example_final))).
Proof.
  apply (at_most_one_watcher None "/home/u" EmptyString ∅ ∅ example_session example_final).
  vm_compute. reflexivity.
Defined.

(** In that session the handle opened by the first [init] is closed by
    the second one, which watches the new vault file. *)
Example session_replaces_watcher :
  watchers example_final
  = [{| w_id := 1;
        w_vaultFilePath := "/vault/notes_9c70933aff6b2a6d08c687a6cbb6b765.json" |}]
  /\ _fileWatcher (this example_final) = Some 1%nat.
Proof. split; vm_compute; reflexivity. Qed.

(* ===================================================================== *)
(** ** Loading and saving *)
(* ===================================================================== *)

(** *** Helpers *)

(** Evaluates a computation whose platform calls are all visible, on
    every branch it can take. *)
Ltac run_all_branches :=
  unfold_monad; unfold_platform; unfold_monad; simpl;
  repeat match goal with
         | |- context [match ?x with _ => _ end] =>
             lazymatch x with
             | context [match _ with _ => _ end] => fail
             | _ => destruct x eqn:?; simpl
             end
         | |- context [if ?b then _ else _] =>
             lazymatch b with
             | context [match _ with _ => _ end] => fail
             | _ => destruct b eqn:?; simpl
             end
         end.

(** [init] on a vault file that is there: the branch taken, and the
    world in which it runs. *)
Lemma init_present_unfold (value : option Json.value) (w : World) (content : string) :
  files w !! vaultFilePath_of w = Some content ->
  onDidReceiveMessage (MsgInit value) w
  = match Json.parse content with
    | Some state =>
        (postMessage (LoadState (Some state));;
         _startWatching (vaultFilePath_of w)) (cached (Some content) (prepared w))
    | None =>
        (showErrorMessage parse_error_text;;
         _startWatching (vaultFilePath_of w)) (cached (Some content) (prepared w))
    end.
Proof.
  intros Hf. rewrite init_unfold.
  unfold mbind at 1. unfold M_bind, bind.
  rewrite (prepared_file_present w content Hf).
  unfold_monad. unfold fs_readFileSync, set_lastSavedStateStr, JSON_parse.
  unfold_monad. cbv beta. rewrite prepared_files, Hf. cbv beta iota.
  destruct (Json.parse content) as [state|]; cbv beta iota.
  - unfold postMessage. destruct (_view _); reflexivity.
  - reflexivity.
Qed.



(** X1. When the vault file exists and parses, [init] posts the parsed
    state, remembers the raw text, writes nothing and shows no error;
    the legacy state that came with the message plays no part. *)
Theorem init_loads_existing (w : World) (value : option Json.value)
    (content : string) (v : Json.value) :
  _view (this w) = true ->
  files w !! vaultFilePath_of w = Some content ->
  Json.parse content = Some v ->
  exists w1,
    onDidReceiveMessage (MsgInit value) w = (Ret tt, w1)
    /\ outbox w1 = outbox w ++ [LoadState (Some v)]
    /\ _lastSavedStateStr (this w1) = Some content
    /\ files w1 = files w
    /\ errors_shown w1 = errors_shown w.
Proof.
  intros Hview Hf Hp. rewrite (init_present_unfold value w content Hf), Hp.
  unfold_monad. unfold postMessage.
  change (_view (this (cached (Some content) (prepared w)))) with (_view (this (prepared w))).
  rewrite prepared_this, Hview. cbv beta iota.
  match goal with
  | |- context [_startWatching ?p ?w0] =>
      destruct (startWatching_run p w0) as (w1 & Hrun & Hfs & Ho & He & Hc & Ht);
      rewrite Hrun
  end.
  exists w1. simpl in Hfs, Ho, He, Hc.
  rewrite prepared_files in Hfs. rewrite prepared_outbox in Ho.
  rewrite prepared_errors in He. auto.
Qed.

Lemma init_loads_existing_witness :
  let compact := Json.js "{'pages':['a'],'currentPage':0}" in
  let w := example_world (Some EmptyString) (Some compact) in
  exists w1,
    onDidReceiveMessage (MsgInit None) w = (Ret tt, w1)
    /\ outbox w1 = outbox w ++ [LoadState (Some example_notes)]
    /\ _lastSavedStateStr (this w1) = Some compact
    /\ files w1 = files w
    /\ errors_shown w1 = errors_shown w.
Proof.
  intros compact w.
  apply (init_loads_existing w None compact example_notes).
  - reflexivity.
  - vm_compute. reflexivity.
  - vm_compute. reflexivity.
Defined.



(** X3. [saveState] is silent: whatever value it carries, and whether it
    returns or throws, it posts nothing to the webview, shows no error
    message and leaves the watcher handles alone. *)
Theorem saveState_silent (w : World) (value : option Json.value) :
  let w1 := snd (onDidReceiveMessage (MsgSaveState value) w) in
  outbox w1 = outbox w
  /\ errors_shown w1 = errors_shown w
  /\ watch_state w1 = watch_state w.
Proof.
  assert (Hpro : forall {X} (f : World -> X),
             (forall g w, f (with_timers g w) = f w) ->
             (forall g w, f (with_dirs g w) = f w) ->
             (forall s w, f (cached s w) = f w) ->
             (forall g w, f (with_files g w) = f w) ->
             keeps f (onDidReceiveMessage (MsgSaveState value))).
  { intros X f Ht Hd Hc Hf w0. unfold onDidReceiveMessage.
    rewrite (prologue_run (fun workspaceHash vaultDir =>
      set_lastSavedStateStr (Json.stringify value);;
      lastSaved ← gets (fun w => _lastSavedStateStr (this w));
      fs_writeFileSync (Path.join vaultDir (notes_file workspaceHash)) lastSaved)).
    transitivity (f (prepared w0)).
    - run_all_branches; rewrite ?Hf, ?Hc; reflexivity.
    - unfold prepared. destruct (_ || _); rewrite ?Hd, ?Ht; reflexivity. }
  intros w1. repeat split.
  - apply (Hpro _ outbox); reflexivity.
  - apply (Hpro _ errors_shown); reflexivity.
  - apply (Hpro _ watch_state); reflexivity.
Qed.



(* ===================================================================== *)
(** ** The watcher callback on every input *)
(* ===================================================================== *)

(** X5. The callback acts only on its own file: an event that names
    another file, or no file at all, and an event that finds the vault
    file gone, leave the world exactly as it was. *)
Theorem watch_callback_ignores (w : World) (path : string) (filename : option string) :
  filename <> Some (Path.basename path)
  \/ (files w !! path = None /\ path ∉ dirs w) ->
  watch_callback path filename w = (Ret tt, w).
Proof.
  intros [Hname|[Hfile Hdir]]; unfold watch_callback.
  - rewrite bool_decide_eq_false_2 by exact Hname. reflexivity.
  - destruct (bool_decide (filename = Some (Path.basename path))); [|reflexivity].
    unfold_monad. unfold fs_existsSync. unfold_monad. cbv beta.
    rewrite Hfile.
    rewrite (bool_decide_eq_false_2 (is_Some None)) by (intros [x Hx]; discriminate).
    rewrite bool_decide_eq_false_2 by exact Hdir. reflexivity.
Qed.

Lemma watch_callback_ignores_witness :
  let s := Json.js "{'pages':['b'],'currentPage':0}" in
  watch_callback example_path (Some "other.json"%string)
    (example_world (Some EmptyString) (Some s))
  = (Ret tt, example_world (Some EmptyString) (Some s))
  /\ watch_callback example_path None (example_world (Some EmptyString) (Some s))
     = (Ret tt, example_world (Some EmptyString) (Some s))
  /\ watch_callback example_path (Some (Path.basename example_path))
       (example_world (Some s) None)
     = (Ret tt, example_world (Some s) None).
Proof.
  intros s. split; [|split].
  - apply (watch_callback_ignores (example_world (Some EmptyString) (Some s))
             example_path (Some "other.json"%string)).
    left. vm_compute. discriminate.
  - apply (watch_callback_ignores (example_world (Some EmptyString) (Some s))
             example_path None).
    left. discriminate.
  - apply (watch_callback_ignores (example_world (Some s) None) example_path
             (Some (Path.basename example_path))).
    right. split; [vm_compute; reflexivity|].
    apply (bool_decide_unpack _). vm_compute. exact I.
Defined.

(** X6. The callback never lets an exception escape and never leaves the
    modelled fragment; it writes no file, creates no directory, shows
    no error, schedules nothing and opens or closes no watcher.  The
    only things it can change are the cache and, by at most one
    [loadState], the outbox. *)
Theorem watch_callback_safe (w : World) (path : string) (filename : option string) :
  let r := watch_callback path filename w in
  fst r = Ret tt
  /\ files (snd r) = files w
  /\ dirs (snd r) = dirs w
  /\ errors_shown (snd r) = errors_shown w
  /\ timers (snd r) = timers w
  /\ watch_state (snd r) = watch_state w
  /\ (outbox (snd r) = outbox w
      \/ exists v, outbox (snd r) = outbox w ++ [LoadState (Some v)]).
Proof.
  unfold watch_callback. run_all_branches;
    repeat split; try reflexivity; try (left; reflexivity);
    right; eexists; reflexivity.
Qed.

(* ===================================================================== *)
(** ** The workspace hash and the vault file it names *)
(* ===================================================================== *)


(** X7. In a window without workspace folder ([workspaceFolders]
    undefined or empty) [_getWorkspaceHash] is a pure query: it returns
    the digest of [global] and leaves the world, the timer queue
    included, exactly as it was. *)
Theorem workspace_hash_without_folder (w : World) :
  workspaceFolders w = None \/ workspaceFolders w = Some [] ->
  _getWorkspaceHash w = (Ret "9c70933aff6b2a6d08c687a6cbb6b765"%string, w).
Proof.
  intros H. unfold _getWorkspaceHash. unfold_monad. cbv beta.
  destruct H as [-> | ->]; cbv beta iota; rewrite md5_global; reflexivity.
Qed.

Lemma workspace_hash_without_folder_witness :
  _getWorkspaceHash (example_world (Some EmptyString) None)
  = (Ret "9c70933aff6b2a6d08c687a6cbb6b765"%string, example_world (Some EmptyString) None).
Proof.
  apply (workspace_hash_without_folder (example_world (Some EmptyString) None)).
  left. reflexivity.
Defined.


(** What either branch of [init] does before [_startWatching] leaves
    handles and directories alone. *)
Lemma init_branch_keeps {X} (f : World -> X) (value : option Json.value)
    (p : string) (filePresent : bool) :
  (forall s w, f (cached s w) = f w) ->
  (forall g w, f (with_outbox g w) = f w) ->
  (forall g w, f (with_errors g w) = f w) ->
  (forall g w, f (with_files g w) = f w) ->
  keeps f (init_branch value p filePresent).
Proof.
  intros Hc Ho He Hf. unfold init_branch.
  destruct filePresent; keeps_structure;
    try (unfold set_lastSavedStateStr, showErrorMessage; apply keeps_modify; intros; auto);
    try (apply keeps_postMessage; auto).
  unfold fs_writeFileSync.
  match goal with |- context [match ?x with Some _ => _ | None => _ end] => destruct x end;
    [destruct (bool_decide _)|]; simpl; auto.
Qed.

Lemma init_run_branch (value : option Json.value) (w : World) :
  onDidReceiveMessage (MsgInit value) w
  = match init_branch value (vaultFilePath_of w)
            (exists_at (vaultFilePath_of w) (prepared w)) (prepared w) with
    | (Ret _, w0) => _startWatching (vaultFilePath_of w) w0
    | (Throw e, w0) => (Throw e, w0)
    | (Stuck, w0) => (Stuck, w0)
    end.
Proof. rewrite init_unfold. reflexivity. Qed.



(* ===================================================================== *)
(** ** Changing the vault directory *)
(* ===================================================================== *)



(* ===================================================================== *)
(** ** Before the view is resolved *)
(* ===================================================================== *)

Lemma dispatch_keeps_view_field (ev : event) :
  ev <> EvResolveView -> keeps (fun w => _view (this w)) (dispatch ev).
Proof.
  intros Hev. destruct ev as [|data|h filename| |result|affects vaultPath|p data|p];
    [contradiction| | | | | | |]; unfold dispatch.
  - apply keeps_bind; [apply keeps_gets|intros resolved].
    destruct resolved; [|apply keeps_ret].
    destruct data as [s|s|value|value|s]; try apply keeps_ret.
    + intros w0. rewrite init_run_branch.
      pose proof (init_branch_keeps (fun w => _view (this w)) value (vaultFilePath_of w0)
                    (exists_at (vaultFilePath_of w0) (prepared w0))
                    (fun _ _ => eq_refl) (fun _ _ => eq_refl) (fun _ _ => eq_refl)
                    (fun _ _ => eq_refl) (prepared w0)) as Hb.
      cbv beta in Hb. rewrite prepared_this in Hb.
      destruct (init_branch _ _ _ _) as [[[]| e |] w1]; simpl in Hb |- *; try exact Hb.
      rewrite <- Hb.
      apply (keeps_startWatching (fun w => _view (this w))); reflexivity.
    + intros w0. unfold onDidReceiveMessage.
      rewrite (prologue_run (fun workspaceHash vaultDir =>
        set_lastSavedStateStr (Json.stringify value);;
        lastSaved ← gets (fun w => _lastSavedStateStr (this w));
        fs_writeFileSync (Path.join vaultDir (notes_file workspaceHash)) lastSaved)).
      transitivity (_view (this (prepared w0))); [|rewrite prepared_this; reflexivity].
      run_all_branches; reflexivity.
  - apply keeps_bind; [apply keeps_gets|intros ws].
    destruct (List.find _ ws); [|apply keeps_ret].
    intros w0. unfold watch_callback. run_all_branches; try reflexivity; congruence.
  - apply keeps_bind; [apply keeps_gets|intros ts].
    destruct ts as [|t rest]; [apply keeps_ret|].
    apply keeps_bind; [apply keeps_modify; reflexivity|intros _].
    intros w0. unfold timer_callback, _getVaultDir. run_all_branches; try reflexivity; congruence.
  - apply keeps_bind; [apply keeps_gets|intros ts].
    destruct ts as [|t rest]; [apply keeps_ret|].
    apply keeps_bind; [apply keeps_modify; reflexivity|intros _].
    intros w0. unfold timer_callback_outside, _getVaultDir.
    run_all_branches; try reflexivity; congruence.
  - apply keeps_bind; [apply keeps_gets|intros resolved].
    destruct resolved; [|apply keeps_ret].
    intros w0. unfold onDidChangeConfiguration. run_all_branches; try reflexivity; congruence.
  - apply keeps_modify. reflexivity.
  - apply keeps_modify. reflexivity.
Qed.

Lemma dispatch_dormant (w0 w : World) (ev : event) :
  _view (this w0) = false ->
  dormant w0 w ->
  _view (this (snd (dispatch ev w))) = true \/ dormant w0 (snd (dispatch ev w)).
Proof.
  intros Hv0 (Ho & Hws & Hts & He & Hthis & Hds).
  assert (Hv : _view (this w) = false) by (rewrite Hthis; exact Hv0).
  destruct ev as [|data|h filename| |result|affects vaultPath|p data|p];
    unfold dispatch; unfold_monad; cbv beta.
  - left. reflexivity.
  - right. rewrite Hv. repeat split; assumption.
  - right. rewrite Hws. repeat split; assumption.
  - right. rewrite Hts. repeat split; assumption.
  - right. rewrite Hts. repeat split; assumption.
  - right. rewrite Hv. repeat split; assumption.
  - right. repeat split; assumption.
  - right. repeat split; assumption.
Qed.

Lemma run_resolved_or_dormant (w0 : World) (evs : list event) (w w' : World) :
  _view (this w0) = false ->
  _view (this w) = true \/ dormant w0 w ->
  run evs w = Some w' ->
  _view (this w') = true \/ dormant w0 w'.
Proof.
  intros Hv0. revert w. induction evs as [|ev rest IH]; intros w Hw Hrun; simpl in Hrun.
  - injection Hrun as <-. exact Hw.
  - assert (Hstep : _view (this (snd (dispatch ev w))) = true
                    \/ dormant w0 (snd (dispatch ev w))).
    { destruct Hw as [Hv|Hd]; [|apply (dispatch_dormant w0 w ev Hv0 Hd)].
      left.
      assert (Hcase : ev = EvResolveView \/ ev <> EvResolveView)
        by (destruct ev; (left; reflexivity) || (right; discriminate)).
      destruct Hcase as [->|Hne]; [reflexivity|].
      rewrite (dispatch_keeps_view_field ev Hne w). exact Hv. }
    destruct (dispatch ev w) as [[[]| e |] w1]; simpl in Hstep;
      [apply (IH w1 Hstep Hrun) | apply (IH w1 Hstep Hrun) | discriminate].
Qed.

(** X10. Until [resolveWebviewView] has run the provider does nothing:
    in every state the event loop reaches from a freshly constructed
    provider, either the view is resolved, or nothing was posted or
    shown, no watcher is open, no timer is pending, and the provider's
    fields and the directories are as at the start.  So a watcher or a
    timer callback never runs without a view to post to. *)
Theorem nothing_before_resolve (folders : option (list Uri)) (home vaultPath : string)
    (fs : gmap string string) (ds : gset string) (evs : list event) (w : World) :
  run evs (initial folders home vaultPath fs ds) = Some w ->
  (_view (this w) = true \/ dormant (initial folders home vaultPath fs ds) w)
  /\ (watchers w <> [] \/ timers w <> [] \/ outbox w <> [] -> _view (this w) = true).
Proof.
  intros Hrun.
  assert (H : _view (this w) = true \/ dormant (initial folders home vaultPath fs ds) w).
  { apply (run_resolved_or_dormant (initial folders home vaultPath fs ds) evs
             (initial folders home vaultPath fs ds) w); [reflexivity| |exact Hrun].
    right. repeat split. }
  split; [exact H|].
  intros Hact. destruct H as [Hv|(Ho & Hws & Hts & _)]; [exact Hv|].
  destruct Hact as [Hn|[Hn|Hn]]; contradiction.
Qed.

Lemma nothing_before_resolve_witness :
  (_view (this example_final) = true \/ dormant example_start example_final)
  /\ (watchers example_final <> [] \/ timers example_final <> []
      \/ outbox example_final <> [] -> _view (this example_final) = true).
Proof.
  apply (nothing_before_resolve None "/home/u" EmptyString ∅ ∅ example_session example_final).
  vm_compute. reflexivity.
Defined.

(* ===================================================================== *)
(** ** What the provider writes *)
(* ===================================================================== *)

Ltac writes_cache_leaf :=
  simpl; rewrite ?prepared_files;
  first [ left; reflexivity
        | right; eexists _, _; split; reflexivity ].

Lemma writes_cache_saveState (value : option Json.value) :
  writes_cache (onDidReceiveMessage (MsgSaveState value)).
Proof.
  intros w. unfold onDidReceiveMessage.
  rewrite (prologue_run (fun workspaceHash vaultDir =>
    set_lastSavedStateStr (Json.stringify value);;
    lastSaved ← gets (fun w => _lastSavedStateStr (this w));
    fs_writeFileSync (Path.join vaultDir (notes_file workspaceHash)) lastSaved)).
  run_all_branches; writes_cache_leaf.
Qed.

Lemma writes_cache_init (value : option Json.value) :
  writes_cache (onDidReceiveMessage (MsgInit value)).
Proof.
  intros w. rewrite init_run_branch.
  set (b := exists_at _ _).
  assert (Hb : files (snd (init_branch value (vaultFilePath_of w) b (prepared w))) = files w
               \/ exists p s,
                    files (snd (init_branch value (vaultFilePath_of w) b (prepared w)))
                    = <[p := s]> (files w)
                    /\ _lastSavedStateStr
                         (this (snd (init_branch value (vaultFilePath_of w) b (prepared w))))
                       = Some s).
  { unfold init_branch. destruct b; run_all_branches; writes_cache_leaf. }
  destruct (init_branch value (vaultFilePath_of w) b (prepared w)) as [[[]| e |] w0];
    simpl in Hb |- *; try exact Hb.
  destruct (startWatching_run (vaultFilePath_of w) w0) as (w1 & Hrun & Hfs & _ & _ & Hc & _).
  rewrite Hrun. simpl. rewrite Hfs, Hc. exact Hb.
Qed.

Lemma writes_cache_timer_callback (t : Timer) : writes_cache (timer_callback t).
Proof.
  intros w. unfold timer_callback, _getVaultDir. run_all_branches; writes_cache_leaf.
Qed.

Lemma writes_cache_timer_callback_outside (t : Timer) (result : option (string * Json.value)) :
  writes_cache (timer_callback_outside t result).
Proof.
  intros w. unfold timer_callback_outside, _getVaultDir.
  run_all_branches; writes_cache_leaf.
Qed.

Lemma writes_cache_gets {A B} (f : World -> A) (k : A -> M B) :
  (forall a, writes_cache (k a)) -> writes_cache (gets f ≫= k).
Proof. intros H w. exact (H (f w) w). Qed.

Lemma writes_cache_keeps {A} (m : M A) : keeps files m -> writes_cache m.
Proof. intros H w. left. apply H. Qed.

Lemma writes_cache_dispatch (ev : event) : internal ev = true -> writes_cache (dispatch ev).
Proof.
  intros Hev.
  destruct ev as [|data|h filename| |result|affects vaultPath|p data|p];
    try discriminate; unfold dispatch.
  - apply writes_cache_keeps, keeps_modify. reflexivity.
  - apply writes_cache_gets. intros resolved.
    destruct resolved; [|apply writes_cache_keeps, keeps_ret].
    destruct data as [s|s|value|value|s]; try (apply writes_cache_keeps, keeps_ret).
    + apply writes_cache_init.
    + apply writes_cache_saveState.
  - apply writes_cache_gets. intros ws.
    destruct (List.find _ ws) as [x|]; [|apply writes_cache_keeps, keeps_ret].
    apply writes_cache_keeps. intros w.
    unfold watch_callback. run_all_branches; reflexivity.
  - apply writes_cache_gets. intros ts.
    destruct ts as [|t rest]; [apply writes_cache_keeps, keeps_ret|].
    intros w. apply (writes_cache_timer_callback t (with_timers (fun _ => rest) w)).
  - apply writes_cache_gets. intros ts.
    destruct ts as [|t rest]; [apply writes_cache_keeps, keeps_ret|].
    intros w.
    apply (writes_cache_timer_callback_outside t result (with_timers (fun _ => rest) w)).
  - apply writes_cache_gets. intros resolved.
    destruct resolved; [|apply writes_cache_keeps, keeps_ret].
    apply writes_cache_keeps. intros w.
    unfold onDidChangeConfiguration. run_all_branches; reflexivity.
Qed.

(** X11. The provider's own code (any event but the file operations of
    other processes) changes the content of a path only by writing the
    very string it leaves in [_lastSavedStateStr], and it never removes
    a file. *)
Theorem provider_writes_its_cache (ev : event) (w : World) (p : string) :
  internal ev = true ->
  let w' := snd (dispatch ev w) in
  (files w' !! p = files w !! p
   \/ exists s, files w' !! p = Some s /\ _lastSavedStateStr (this w') = Some s)
  /\ (is_Some (files w !! p) -> is_Some (files w' !! p)).
Proof.
  intros Hev w'.
  assert (H : files w' !! p = files w !! p
              \/ exists s, files w' !! p = Some s /\ _lastSavedStateStr (this w') = Some s).
  { destruct (writes_cache_dispatch ev Hev w) as [Hsame|(q & s & Hf & Hc)]; subst w'.
    - left. rewrite Hsame. reflexivity.
    - rewrite Hf. destruct (decide (q = p)) as [->|Hne].
      + right. exists s. split; [apply lookup_insert_eq|exact Hc].
      + left. apply lookup_insert_ne. exact Hne. }
  split; [exact H|].
  intros Hsome. destruct H as [-> | (s & -> & _)]; eauto.
Qed.

Lemma provider_writes_its_cache_witness :
  let ev := EvMessage (MsgSaveState (Some example_notes)) in
  let w := example_world (Some EmptyString) (Some "{}"%string) in
  let w' := snd (dispatch ev w) in
  (files w' !! example_path = files w !! example_path
   \/ exists s, files w' !! example_path = Some s /\ _lastSavedStateStr (this w') = Some s)
  /\ (is_Some (files w !! example_path) -> is_Some (files w' !! example_path)).
Proof.
  intros ev w.
  apply (provider_writes_its_cache ev w example_path). reflexivity.
Defined.

(* ===================================================================== *)
(** ** The delayed callback of [_getWorkspaceHash] *)
(* ===================================================================== *)

Lemma find_obj_set_same (k : string) (x : Json.value) (kvs : list (string * Json.value)) :
  List.find (fun kv => String.eqb (fst kv) k) (Json.obj_set k x kvs)
  = Some (match List.find (fun kv => String.eqb (fst kv) k) kvs with
          | Some kv => (fst kv, x)
          | None => (k, x)
          end).
Proof.
  induction kvs as [|[k' v'] r IH]; simpl.
  - rewrite String.eqb_refl. reflexivity.
  - destruct (String.eqb k' k) eqn:E; simpl; rewrite E; [reflexivity|exact IH].
Qed.

Lemma find_obj_set_other (k k0 : string) (x : Json.value) (kvs : list (string * Json.value)) :
  k0 <> k ->
  List.find (fun kv => String.eqb (fst kv) k0) (Json.obj_set k x kvs)
  = List.find (fun kv => String.eqb (fst kv) k0) kvs.
Proof.
  intros Hne. induction kvs as [|[k' v'] r IH]; simpl.
  - destruct (String.eqb k k0) eqn:E; [|reflexivity].
    apply String.eqb_eq in E. congruence.
  - destruct (String.eqb k' k) eqn:E; simpl.
    + apply String.eqb_eq in E. subst k'.
      destruct (String.eqb k k0) eqn:E0; [|reflexivity].
      apply String.eqb_eq in E0. congruence.
    + destruct (String.eqb k' k0); [reflexivity|exact IH].
Qed.

Lemma get_set_member_same (state : Json.value) (k : string) (x y : Json.value) :
  get_member state k = Some y -> get_member (set_member state k x) k = Some x.
Proof.
  destruct state as [| | | | |kvs]; try discriminate. simpl. intros _.
  rewrite find_obj_set_same. destruct (List.find _ kvs); reflexivity.
Qed.

Lemma get_set_member_other (state : Json.value) (k k0 : string) (x : Json.value) :
  k0 <> k -> get_member (set_member state k x) k0 = get_member state k0.
Proof.
  intros Hne. destruct state as [| | | | |kvs]; try reflexivity. simpl.
  rewrite (find_obj_set_other k k0 x kvs Hne). reflexivity.
Qed.

(** X12. When the patch of the delayed callback applies, it replaces
    exactly one page, the one [currentPage] indexes, by its text
    followed by the diagnostic block: the number of pages, every other
    page and every other member of the state are as before. *)
Theorem append_to_current_page_one_page (state state' : Json.value) (msg : string) :
  append_to_current_page state msg = PatchTo state' ->
  exists (xs xs' : list Json.value) (i : nat) (el : Json.value) (s : string),
    get_member state "pages" = Some (Json.JArr xs)
    /\ get_member state' "pages" = Some (Json.JArr xs')
    /\ xs !! i = Some el
    /\ concat_operand el = Some s
    /\ xs' !! i = Some (Json.JStr (s +:+ msg))
    /\ length xs' = length xs
    /\ (forall j, j <> i -> xs' !! j = xs !! j)
    /\ (forall k, k <> "pages"%string -> get_member state' k = get_member state k).
Proof.
  unfold append_to_current_page.
  destruct (truthy state); simpl; [|discriminate].
  destruct (get_member state "pages") as [pages|] eqn:Hpages; [|discriminate].
  destruct (truthy pages); simpl; [|discriminate].
  destruct pages as [| | | |xs|]; try discriminate.
  destruct xs as [|x0 xr]; [discriminate|].
  destruct (get_member state "currentPage") as [[| |m e| | |]|]; try discriminate.
  destruct ((0 <=? m)%Z && (0 <=? e)%Z); [|discriminate].
  set (i := Z.to_nat (m * 10 ^ e)).
  destruct ((x0 :: xr) !! i) as [el|] eqn:Hel; [|discriminate].
  destruct (concat_operand el) as [s|] eqn:Hs; [|discriminate].
  intros H. injection H as <-.
  exists (x0 :: xr), (<[i := Json.JStr (s +:+ msg)]> (x0 :: xr)), i, el, s.
  split; [reflexivity|]. split; [apply (get_set_member_same _ _ _ _ Hpages)|].
  split; [exact Hel|]. split; [exact Hs|].
  split; [apply list_lookup_insert_eq, (lookup_lt_Some _ _ _ Hel)|].
  split; [apply length_insert|].
  split.
  - intros j Hj. apply list_lookup_insert_ne. congruence.
  - intros k Hk. apply get_set_member_other. exact Hk.
Qed.

Lemma append_to_current_page_one_page_witness :
  exists (xs xs' : list Json.value) (i : nat) (el : Json.value) (s : string),
    get_member example_notes "pages" = Some (Json.JArr xs)
    /\ get_member example_notes_patched "pages" = Some (Json.JArr xs')
    /\ xs !! i = Some el
    /\ concat_operand el = Some s
    /\ xs' !! i = Some (Json.JStr (s +:+ debugMsg {| t_uri := example_uri;
                                                     t_normalizedAuthority := "box";
                                                     t_uriString := "box/srv/app" |}))
    /\ length xs' = length xs
    /\ (forall j, j <> i -> xs' !! j = xs !! j)
    /\ (forall k, k <> "pages"%string ->
          get_member example_notes_patched k = get_member example_notes k).
Proof.
  apply (append_to_current_page_one_page example_notes example_notes_patched).
  vm_compute. reflexivity.
Defined.




(** X14. The delayed callback leaves the world exactly as it is when
    there is nothing to patch: the cache is undefined or the empty
    string (as right after construction), or it parses to a state that
    has no [pages] member or whose [pages] is an empty array. *)
Theorem timer_callback_idle (t : Timer) (w : World) :
  _lastSavedStateStr (this w) = None
  \/ _lastSavedStateStr (this w) = Some EmptyString
  \/ (exists str state,
        _lastSavedStateStr (this w) = Some str
        /\ Json.parse str = Some state
        /\ (get_member state "pages" = None
            \/ get_member state "pages" = Some (Json.JArr []))) ->
  timer_callback t w = (Ret tt, w).
Proof.
  intros H. unfold timer_callback, try_catch.
  unfold mbind at 1. unfold M_bind, bind, gets.
  destruct H as [-> | [-> | (str & state & -> & Hp & Hpages)]]; try reflexivity.
  destruct (nonempty str); [|reflexivity].
  unfold mbind at 1. unfold M_bind, bind. rewrite getVaultDir_run.
  unfold JSON_parse. rewrite Hp. unfold_monad. cbv beta iota.
  assert (Hskip : append_to_current_page state (debugMsg t) = PatchSkip).
  { unfold append_to_current_page. destruct (truthy state); [|reflexivity]. simpl.
    destruct Hpages as [-> | ->]; reflexivity. }
  rewrite Hskip. reflexivity.
Qed.

Lemma timer_callback_idle_witness :
  let t := {| t_uri := example_uri; t_normalizedAuthority := "box";
              t_uriString := "box/srv/app" |} in
  timer_callback t (example_world (Some EmptyString) None)
  = (Ret tt, example_world (Some EmptyString) None)
  /\ timer_callback t (example_world (Some (Json.js "{'pages':[]}")) None)
     = (Ret tt, example_world (Some (Json.js "{'pages':[]}")) None).
Proof.
  intros t. split.
  - apply (timer_callback_idle t (example_world (Some EmptyString) None)).
    right. left. reflexivity.
  - apply (timer_callback_idle t (example_world (Some (Json.js "{'pages':[]}")) None)).
    right. right. exists (Json.js "{'pages':[]}"), (Json.JObj [("pages", Json.JArr [])]).
    split; [reflexivity|]. split; [vm_compute; reflexivity|]. right. reflexivity.
Defined.

(* ===================================================================== *)
(** ** The nonce *)
(* ===================================================================== *)

Lemma charAt_possible (n : nat) :
  all_alnum (charAt n possible) = true
  /\ (String.length (charAt n possible) <= 1)%nat
  /\ ((n < 62)%nat -> String.length (charAt n possible) = 1%nat).
Proof.
  unfold possible.
  do 62 (destruct n as [|n];
         [split; [reflexivity|split; [simpl; lia|intros _; reflexivity]]|]).
  assert (H : charAt (62 + n) "ABCDEFGHIJKLMNOPQRSTUVWXYZabcdefghijklmnopqrstuvwxyz0123456789"
              = EmptyString) by (destruct n; reflexivity).
  simpl plus in H. rewrite H. split; [reflexivity|split; [simpl; lia|lia]].
Qed.

Lemma all_alnum_app (a b : string) :
  all_alnum (a +:+ b) = all_alnum a && all_alnum b.
Proof.
  induction a as [|c r IH]; [reflexivity|].
  change (all_alnum (String c (r +:+ b)) = all_alnum (String c r) && all_alnum b).
  simpl. rewrite IH, andb_assoc. reflexivity.
Qed.

Lemma nonce_loop (draw : nat -> nat) (rounds : list nat) (text : string) :
  let f := fun text i => text +:+ charAt (draw i) possible in
  all_alnum text = true ->
  all_alnum (fold_left f rounds text) = true
  /\ (String.length (fold_left f rounds text) <= String.length text + length rounds)%nat
  /\ (Forall (fun i => (draw i < 62)%nat) rounds ->
      String.length (fold_left f rounds text) = (String.length text + length rounds)%nat).
Proof.
  intros f. revert text. induction rounds as [|i rest IH]; intros text Ht; simpl.
  - repeat split; [exact Ht|lia|intros _; lia].
  - destruct (charAt_possible (draw i)) as (Ha & Hle & Heq).
    assert (Ht' : all_alnum (f text i) = true).
    { unfold f. rewrite all_alnum_app, Ht, Ha. reflexivity. }
    destruct (IH (f text i) Ht') as (H1 & H2 & H3).
    assert (Hlen : String.length (f text i)
                   = (String.length text + String.length (charAt (draw i) possible))%nat)
      by (unfold f; apply string_length_append).
    repeat split; [exact H1|lia|].
    intros Hall. inversion Hall as [|? ? Hi Hrest]; subst.
    rewrite (H3 Hrest), Hlen, (Heq Hi). lia.
Qed.

(** X15. Whatever the random source yields, the nonce is made of
    letters and digits only and is at most 32 characters long; it has
    exactly 32 characters when every drawn index lies within the
    alphabet. *)
Theorem getNonce_alphanumeric (draw : nat -> nat) :
  all_alnum (_getNonce draw) = true
  /\ (String.length (_getNonce draw) <= 32)%nat
  /\ ((forall i, (i < 32)%nat -> (draw i < 62)%nat) ->
      String.length (_getNonce draw) = 32%nat).
Proof.
  destruct (nonce_loop draw (seq 0 32) EmptyString eq_refl) as (H1 & H2 & H3).
  split; [exact H1|]. split; [exact H2|].
  intros Hdraw. apply H3. apply Forall_forall. intros i Hi.
  apply Hdraw. apply list_elem_of_In, in_seq in Hi. lia.
Qed.

Lemma getNonce_alphanumeric_witness :
  all_alnum (_getNonce (fun i => (7 * i) mod 62)%nat) = true
  /\ (String.length (_getNonce (fun i => (7 * i) mod 62)%nat) <= 32)%nat
  /\ String.length (_getNonce (fun i => (7 * i) mod 62)%nat) = 32%nat.
Proof.
  destruct (getNonce_alphanumeric (fun i => (7 * i) mod 62)%nat) as (H1 & H2 & H3).
  split; [exact H1|]. split; [exact H2|].
  apply H3. intros i _. apply Nat.mod_upper_bound. lia.
Defined.

(* ===================================================================== *)
(** ** The authority, in full *)
(* ===================================================================== *)

Lemma indexOf_split (c : ascii) (a : string) :
  indexOf c a <> (-1)%Z ->
  exists x y, a = x +:+ String c y /\ indexOf c x = (-1)%Z.
Proof.
  induction a as [|b r IH]; simpl; [congruence|].
  destruct (Ascii.eqb b c) eqn:E.
  - intros _. apply Ascii.eqb_eq in E. subst b. exists EmptyString, r. split; reflexivity.
  - destruct (indexOf c r =? -1)%Z eqn:E'; [congruence|].
    intros _. apply Z.eqb_neq in E'. destruct (IH E') as (x & y & -> & Hx).
    exists (String b x), y. split; [reflexivity|]. simpl. rewrite E, Hx. reflexivity.
Qed.

(** X16. [normalizedAuthority] keeps an authority without [+] whole,
    and otherwise keeps exactly what follows the first [+]; these are
    the only two cases. *)
Theorem normalizedAuthority_cases (a : string) :
  (indexOf "+" a = (-1)%Z /\ normalizedAuthority a = a)
  \/ (exists x y,
        a = x +:+ "+" +:+ y /\ indexOf "+" x = (-1)%Z /\ normalizedAuthority a = y).
Proof.
  destruct (Z.eq_dec (indexOf "+" a) (-1)%Z) as [Heq|Hne].
  - left. split; [exact Heq|]. unfold normalizedAuthority. rewrite Heq. reflexivity.
  - right. destruct (indexOf_split "+" a Hne) as (x & y & -> & Hx).
    exists x, y. split; [reflexivity|]. split; [exact Hx|].
    apply (normalizedAuthority_prefix x y Hx).
Qed.

(* ===================================================================== *)
(** ** A save and the callback it leaves behind *)
(* ===================================================================== *)




(* ===================================================================== *)
(** ** Failures of the platform *)
(* ===================================================================== *)



(** X19. When the path of the vault directory is taken by a regular
    file, neither handler can write: [saveState] and a migrating [init]
    throw out of the handler with every file as before, nothing posted,
    no error message shown and the watcher as it was; yet the cache
    already holds the serialization that never reached the disk. *)
Theorem write_fails_when_vault_dir_is_a_file (w : World) (v : Json.value) (content : string) :
  files w !! vaultDir_of w = Some content ->
  vaultDir_of w ∉ dirs w ->
  files w !! vaultFilePath_of w = None ->
  vaultFilePath_of w ∉ dirs w ->
  exists e w1 w2,
    onDidReceiveMessage (MsgSaveState (Some v)) w = (Throw e, w1)
    /\ onDidReceiveMessage (MsgInit (Some v)) w = (Throw e, w2)
    /\ files w1 = files w /\ files w2 = files w
    /\ outbox w1 = outbox w /\ outbox w2 = outbox w
    /\ errors_shown w1 = errors_shown w /\ errors_shown w2 = errors_shown w
    /\ watch_state w1 = watch_state w /\ watch_state w2 = watch_state w
    /\ _lastSavedStateStr (this w1) = Some (Json.stringify_at EmptyString v)
    /\ _lastSavedStateStr (this w2) = Some (Json.stringify_at EmptyString v).
Proof.
  intros Hfile Hnd Habs Hnodir.
  set (s := Json.stringify_at EmptyString v).
  assert (Hprep : prepared w = with_timers (fun l => l ++ scheduled w) w).
  { unfold prepared. rewrite Hfile.
    rewrite (bool_decide_eq_true_2 (is_Some (Some content))) by eauto.
    rewrite orb_true_r. reflexivity. }
  assert (Hdirs : Path.dirname (vaultFilePath_of w) ∉ dirs (cached (Some s) (prepared w))).
  { rewrite dirname_vaultFilePath, Hprep. exact Hnd. }
  exists ENOENT, (cached (Some s) (prepared w)), (cached (Some s) (prepared w)).
  split; [|split].
  - unfold onDidReceiveMessage.
    rewrite (prologue_run (fun workspaceHash vaultDir =>
      set_lastSavedStateStr (Json.stringify (Some v));;
      lastSaved ← gets (fun w => _lastSavedStateStr (this w));
      fs_writeFileSync (Path.join vaultDir (notes_file workspaceHash)) lastSaved)).
    unfold_monad. unfold set_lastSavedStateStr, fs_writeFileSync. unfold_monad.
    cbv beta iota. simpl Json.stringify. fold s. cbv beta iota.
    fold (vaultFilePath_of w).
    rewrite bool_decide_eq_false_2 by exact Hdirs. reflexivity.
  - rewrite init_unfold.
    unfold mbind at 1. unfold M_bind, bind.
    rewrite (prepared_file_absent w Habs Hnodir).
    unfold_monad. unfold set_lastSavedStateStr, fs_writeFileSync. unfold_monad.
    cbv beta iota. simpl Json.stringify. fold s. cbv beta iota.
    rewrite bool_decide_eq_false_2 by exact Hdirs. reflexivity.
  - simpl. rewrite prepared_files, prepared_outbox, prepared_errors.
    unfold watch_state. simpl. destruct (prepared_watchers w) as [-> ->].
    rewrite prepared_this. repeat split; reflexivity.
Qed.

Lemma write_fails_when_vault_dir_is_a_file_witness :
  let w := initial None "/home/u" "/tmp/taken" {[ "/tmp/taken"%string := "x"%string ]} ∅ in
  exists e w1 w2,
    onDidReceiveMessage (MsgSaveState (Some example_notes)) w = (Throw e, w1)
    /\ onDidReceiveMessage (MsgInit (Some example_notes)) w = (Throw e, w2)
    /\ files w1 = files w /\ files w2 = files w
    /\ outbox w1 = outbox w /\ outbox w2 = outbox w
    /\ errors_shown w1 = errors_shown w /\ errors_shown w2 = errors_shown w
    /\ watch_state w1 = watch_state w /\ watch_state w2 = watch_state w
    /\ _lastSavedStateStr (this w1) = Some (Json.stringify_at EmptyString example_notes)
    /\ _lastSavedStateStr (this w2) = Some (Json.stringify_at EmptyString example_notes).
Proof.
  intros w. apply (write_fails_when_vault_dir_is_a_file w example_notes "x").
  - vm_compute. reflexivity.
  - apply (bool_decide_unpack _). vm_compute. exact I.
  - vm_compute. reflexivity.
  - apply (bool_decide_unpack _). vm_compute. exact I.
Defined.

(* ===================================================================== *)
(** ** An external change, reported once *)
(* ===================================================================== *)

(** X20. When another process replaces the vault file by valid JSON that
    differs from the cached text, the first watcher event for the file
    posts exactly one [loadState] with the parsed value; a further
    event for the same write (the platform may report a change more
    than once) changes nothing at all. *)
Theorem external_change_reported_once (w : World) (x : Watcher) (data : string)
    (v : Json.value) :
  let p := w_vaultFilePath x in
  let ev := EvWatch (w_id x) (Some (Path.basename p)) in
  _view (this w) = true ->
  List.find (fun y => Nat.eqb (w_id y) (w_id x)) (watchers w) = Some x ->
  Json.parse data = Some v ->
  _lastSavedStateStr (this w) <> Some data ->
  exists w1 w2,
    dispatch (EvExternalWrite p data) w = (Ret tt, w1)
    /\ dispatch ev w1 = (Ret tt, w2)
    /\ outbox w2 = outbox w ++ [LoadState (Some v)]
    /\ _lastSavedStateStr (this w2) = Some data
    /\ dispatch ev w2 = (Ret tt, w2).
Proof.
  intros p ev Hview Hfind Hp Hne.
  set (w1 := with_files (fun fs => <[p := data]> fs) w).
  set (w2 := with_outbox (fun o => o ++ [LoadState (Some v)]) (cached (Some data) w1)).
  assert (Hf1 : files w1 !! p = Some data) by apply lookup_insert_eq.
  assert (H1 : dispatch ev w1 = (Ret tt, w2)).
  { unfold ev, dispatch. unfold mbind at 1. unfold M_bind, bind, gets.
    change (watchers w1) with (watchers w). rewrite Hfind.
    fold p. rewrite (watch_callback_changed w1 p data Hf1 Hne), Hp.
    unfold postMessage.
    change (_view (this (cached (Some data) w1))) with (_view (this w)).
    rewrite Hview. reflexivity. }
  assert (H2 : dispatch ev w2 = (Ret tt, w2)).
  { unfold ev, dispatch. unfold mbind at 1. unfold M_bind, bind, gets.
    change (watchers w2) with (watchers w). rewrite Hfind.
    fold p. apply (watch_callback_same w2 p _ data); [exact Hf1|reflexivity]. }
  exists w1, w2. repeat split; assumption.
Qed.

Lemma external_change_reported_once_witness :
  let x := {| w_id := 0; w_vaultFilePath := example_path |} in
  let w := example_world (Some "{}"%string) (Some "{}"%string) in
  let data := Json.js "{'pages':['a'],'currentPage':0}" in
  let ev := EvWatch 0 (Some (Path.basename example_path)) in
  exists w1 w2,
    dispatch (EvExternalWrite example_path data) w = (Ret tt, w1)
    /\ dispatch ev w1 = (Ret tt, w2)
    /\ outbox w2 = outbox w ++ [LoadState (Some example_notes)]
    /\ _lastSavedStateStr (this w2) = Some data
    /\ dispatch ev w2 = (Ret tt, w2).
Proof.
  intros x w data ev.
  apply (external_change_reported_once w x data example_notes).
  - reflexivity.
  - reflexivity.
  - vm_compute. reflexivity.
  - vm_compute. discriminate.
Defined.

(* ===================================================================== *)
(** ** The status bar *)
(* ===================================================================== *)

(** X21. Through any sequence of [updateStatusBar] calls on an item that
    starts hidden, the item is shown exactly when the last call carried
    a non-empty text, and whenever it is shown its text is that
    non-empty text; without a status bar item nothing ever happens. *)
Theorem statusBar_shown_with_text (bar : StatusBarItem) (calls : list (option string)) :
  sb_visible bar = false ->
  fold_left (fun sb c => updateStatusBar c sb) calls None = None
  /\ exists bar',
       fold_left (fun sb c => updateStatusBar c sb) calls (Some bar) = Some bar'
       /\ (sb_visible bar' = true -> nonempty (sb_text bar') = true)
       /\ (forall earlier c,
             calls = earlier ++ [c] ->
             sb_visible bar' = match c with Some s => nonempty s | None => false end
             /\ (sb_visible bar' = true -> c = Some (sb_text bar'))).
Proof.
  intros Hhidden. split.
  - induction calls as [|c rest IH]; [reflexivity|exact IH].
  - revert bar Hhidden. induction calls as [|c rest IH] using rev_ind; intros bar Hhidden.
    + exists bar. split; [reflexivity|]. split; [rewrite Hhidden; discriminate|].
      intros earlier c H. destruct earlier; discriminate.
    + destruct (IH bar Hhidden) as (bar1 & Hrun & _ & _).
      rewrite fold_left_app. simpl. rewrite Hrun.
      assert (Hlast : forall earlier c0, rest ++ [c] = earlier ++ [c0] -> c0 = c).
      { intros earlier c0 H. apply app_inj_tail in H. destruct H as [_ H]. congruence. }
      unfold updateStatusBar. destruct c as [s|]; [destruct (nonempty s) eqn:Es|].
      * eexists. split; [reflexivity|]. simpl. split; [intros _; exact Es|].
        intros earlier c0 H. rewrite (Hlast earlier c0 H). rewrite Es. auto.
      * eexists. split; [reflexivity|]. simpl. split; [discriminate|].
        intros earlier c0 H. rewrite (Hlast earlier c0 H). rewrite Es.
        split; [reflexivity|discriminate].
      * eexists. split; [reflexivity|]. simpl. split; [discriminate|].
        intros earlier c0 H. rewrite (Hlast earlier c0 H).
        split; [reflexivity|discriminate].
Qed.

Lemma statusBar_shown_with_text_witness :
  let calls := [Some "3 words"%string; None; Some EmptyString; Some "5 words"%string] in
  let bar := {| sb_text := EmptyString; sb_visible := false |} in
  fold_left (fun sb c => updateStatusBar c sb) calls None = None
  /\ exists bar',
       fold_left (fun sb c => updateStatusBar c sb) calls (Some bar) = Some bar'
       /\ (sb_visible bar' = true -> nonempty (sb_text bar') = true)
       /\ (forall earlier c,
             calls = earlier ++ [c] ->
             sb_visible bar' = match c with Some s => nonempty s | None => false end
             /\ (sb_visible bar' = true -> c = Some (sb_text bar'))).
Proof.
  intros calls bar. apply (statusBar_shown_with_text bar calls). reflexivity.
Defined.

(* ===================================================================== *)
(** ** Callbacks pile up *)
(* ===================================================================== *)

(** X22. Every [init] and every [saveState], whatever it carries and
    whether it returns or throws, adds the callbacks of one
    [_getWorkspaceHash] call to the end of the timer queue and removes
    none: one callback in a window with a workspace folder, none
    without.  Nothing ever cancels a pending callback. *)
Theorem handlers_schedule_callback (w : World) (value : option Json.value) :
  timers (snd (onDidReceiveMessage (MsgInit value) w)) = timers w ++ scheduled w
  /\ timers (snd (onDidReceiveMessage (MsgSaveState value) w)) = timers w ++ scheduled w
  /\ (length (scheduled w) <= 1)%nat
  /\ (scheduled w = [] <->
      workspaceFolders w = None \/ workspaceFolders w = Some []).
Proof.
  split; [|split; [|split]].
  - rewrite init_run_branch.
    pose proof (init_branch_keeps timers value (vaultFilePath_of w)
                  (exists_at (vaultFilePath_of w) (prepared w))
                  (fun _ _ => eq_refl) (fun _ _ => eq_refl) (fun _ _ => eq_refl)
                  (fun _ _ => eq_refl) (prepared w)) as Hb.
    rewrite prepared_timers in Hb.
    destruct (init_branch _ _ _ _) as [[[]| e |] w0]; simpl in Hb |- *; try exact Hb.
    rewrite <- Hb. apply (keeps_startWatching timers); reflexivity.
  - unfold onDidReceiveMessage.
    rewrite (prologue_run (fun workspaceHash vaultDir =>
      set_lastSavedStateStr (Json.stringify value);;
      lastSaved ← gets (fun w => _lastSavedStateStr (this w));
      fs_writeFileSync (Path.join vaultDir (notes_file workspaceHash)) lastSaved)).
    rewrite <- prepared_timers.
    run_all_branches; reflexivity.
  - unfold scheduled. destruct (workspaceFolders w) as [[|uri rest]|]; simpl; lia.
  - unfold scheduled. destruct (workspaceFolders w) as [[|uri rest]|]; split;
      try (intros; reflexivity); auto; try discriminate.
    intros [H|H]; discriminate.
Qed.

(* ===================================================================== *)
(** ** Page text through the vault file *)
(* ===================================================================== *)

(** Reading what [escape_char] printed puts the character back. *)
Lemma lex_feed_escape_char (c : ascii) (acc : list ascii) :
  lex_feed (Json.LStr acc) (Json.escape_char c) = Some (Json.LStr (c :: acc)).
Proof.
  destruct c as [[] [] [] [] [] [] [] []]; reflexivity.
Qed.

Lemma lex_from_feed (st st' : Json.lstate) (s rest : string) :
  lex_feed st s = Some st' ->
  Json.lex_from st (s +:+ rest) = Json.lex_from st' rest.
Proof.
  revert st. induction s as [|c r IH]; intros st H.
  - injection H as <-. reflexivity.
  - change (Json.lex_from st (String c (r +:+ rest)) = Json.lex_from st' rest).
    simpl in H |- *.
    destruct (Json.lex_step st c) as [[st1 [|t ts]]|]; try discriminate.
    rewrite (IH st1 H). destruct (Json.lex_from st' rest); reflexivity.
Qed.

Lemma lex_escape_char (c : ascii) (acc : list ascii) (rest : string) :
  Json.lex_from (Json.LStr acc) (Json.escape_char c +:+ rest)
  = Json.lex_from (Json.LStr (c :: acc)) rest.
Proof. apply lex_from_feed, lex_feed_escape_char. Qed.

Lemma append_assoc (a b c : string) : (a +:+ b) +:+ c = a +:+ (b +:+ c).
Proof.
  induction a as [|x r IH]; [reflexivity|].
  change (String x ((r +:+ b) +:+ c) = String x (r +:+ (b +:+ c))).
  rewrite IH. reflexivity.
Qed.

Lemma lex_escape (s : string) (acc : list ascii) :
  Json.lex_from (Json.LStr acc) (Json.escape s +:+ String Json.dquote EmptyString)
  = Some [Json.TScalar
            (Json.JStr (string_of_list_ascii (rev acc ++ list_ascii_of_string s)))].
Proof.
  revert acc. induction s as [|c r IH]; intros acc.
  - simpl. rewrite app_nil_r. reflexivity.
  - change (Json.escape (String c r)) with (Json.escape_char c +:+ Json.escape r).
    rewrite append_assoc, lex_escape_char, IH. simpl. rewrite <- app_assoc. reflexivity.
Qed.

(** X23. Text survives serialization: for every string, whatever bytes
    it holds (quotes, backslashes, line breaks, control characters),
    [JSON.parse] of its [JSON.stringify] is the string again. *)
Theorem parse_stringify_string (s : string) :
  (Json.stringify (Some (Json.JStr s)) ≫= Json.parse) = Some (Json.JStr s).
Proof.
  simpl. unfold Json.parse, Json.quote.
  change (String Json.dquote (Json.escape s +:+ String Json.dquote EmptyString))
    with (String Json.dquote EmptyString
          +:+ (Json.escape s +:+ String Json.dquote EmptyString)).
  rewrite (lex_from_feed Json.LIdle (Json.LStr [])) by reflexivity.
  rewrite lex_escape. simpl. rewrite string_of_list_ascii_of_string. reflexivity.
Qed.
